(** * rain: the peer link (internal/peer/peer.go)

    A shallow embedding of the post-handshake read loop [Run], of the send
    operations and of [Close], with the connection, the channels and the
    coordinator's side of the [select] statements made explicit state. *)

From Stdlib Require Import ZArith List Bool Lia String.
From Stdlib Require Import Strings.Byte.
Import ListNotations.
Open Scope Z_scope.

(** ** Bytes and big-endian words (encoding/binary, binary.BigEndian) *)

Module binary.

Definition byte_val (x : byte) : Z := Z.of_N (Byte.to_N x).

Definition byte_of (z : Z) : byte :=
  match Byte.of_N (Z.to_N (z mod 256)) with
  | Some x => x
  | None => x00
  end.

(** Conversion to Go's uint32: wrap-around modulo 2^32. *)
Definition uint32 (z : Z) : Z := z mod 2 ^ 32.

(** binary.BigEndian.Uint32 over the bytes that were read. *)
Definition get_uint32 (bs : list byte) : Z :=
  fold_left (fun acc x => acc * 256 + byte_val x) bs 0.

(** binary.BigEndian.PutUint32. *)
Definition put_uint32 (z : Z) : list byte :=
  [byte_of (z / 2 ^ 24); byte_of (z / 2 ^ 16); byte_of (z / 2 ^ 8); byte_of z].

End binary.
Import binary.

(** ** The bitfield package *)

Module bitfield.

(** Modelled from the spec: package internal/bitfield is not among the
    sources.  Section 4.1: a fixed-length boolean vector, bit [i] at byte
    [i/8], bit position [7 - i%8]; [Set]/[Test] fail outside
    [[0, length)]; [NumBytes n = ceil(n/8)]. *)
Record Bitfield : Type := mkBitfield { b : list byte; length : Z }.

(** Modelled from the spec: [NumBytes(n) = ceil(n/8)]. *)
Definition NumBytes (n : Z) : Z := (n + 7) / 8.

(** Modelled from the spec: [New(n)] is the all-zero set of size [n]. *)
Definition New (n : Z) : Bitfield :=
  mkBitfield (repeat x00 (Z.to_nat (NumBytes n))) n.

Definition Len (bf : Bitfield) : Z := length bf.

Definition in_range (bf : Bitfield) (i : Z) : bool :=
  (0 <=? i) && (i <? length bf).

(** Modelled from the spec: [Test(i)] reads bit [i]; [None] is the bounds
    error. *)
Definition Test (bf : Bitfield) (i : Z) : option bool :=
  if in_range bf i
  then Some (Z.testbit (byte_val (nth (Z.to_nat (i / 8)) (b bf) x00)) (7 - i mod 8))
  else None.

Fixpoint set_nth (k : nat) (f : byte -> byte) (l : list byte) : list byte :=
  match l, k with
  | [], _ => []
  | x :: r, O => f x :: r
  | x :: r, S k' => x :: set_nth k' f r
  end.

(** Modelled from the spec: [Set(i)] sets bit [i]; [None] is the bounds
    error.  ([Set] is reserved, hence the underscore.) *)
Definition Set_ (bf : Bitfield) (i : Z) : option Bitfield :=
  if in_range bf i
  then Some (mkBitfield
               (set_nth (Z.to_nat (i / 8))
                  (fun x => byte_of (Z.lor (byte_val x) (Z.shiftl 1 (7 - i mod 8))))
                  (b bf))
               (length bf))
  else None.

(** The piece indices [i, i+1, ..., i+k-1]. *)
Fixpoint indices (k : nat) (i : Z) : list Z :=
  match k with
  | O => []
  | S k' => i :: indices k' (i + 1)
  end.

Definition is_set (bf : Bitfield) (i : Z) : bool :=
  match Test bf i with Some true => true | _ => false end.

(** Modelled from the spec: [Count()] is the number of set bits. *)
Definition Count (bf : Bitfield) : Z :=
  Z.of_nat (List.length (filter (is_set bf) (indices (Z.to_nat (length bf)) 0))).

(** Modelled from the spec: [Bytes()] is the byte-packed wire form. *)
Definition Bytes (bf : Bitfield) : list byte := b bf.

Definition clear_unused (bs : list byte) (n : Z) : list byte :=
  if n mod 8 =? 0 then bs
  else set_nth (Z.to_nat (n / 8))
         (fun x => byte_of (Z.land (byte_val x)
                              (Z.lxor 255 (Z.shiftr 255 (n mod 8)))))
         bs.

(** Modelled from the spec: [NewFromBytes(b, n)] (called [NewBytes] in
    peer.go) decodes the byte-packed form; the unused trailing bits of the
    last byte are ignored. *)
Definition NewBytes (bs : list byte) (n : Z) : Bitfield :=
  mkBitfield (clear_unused (firstn (Z.to_nat (NumBytes n)) bs) n) n.

End bitfield.

(** ** Message ids *)

Module messageid.

(** Modelled from the spec: package internal/messageid is not among the
    sources; the ids are those of the table of section 4.2.  A
    [MessageID] is one byte on the wire. *)
Definition MessageID := byte.
Definition Choke : MessageID := x00.
Definition Unchoke : MessageID := x01.
Definition Interested : MessageID := x02.
Definition NotInterested : MessageID := x03.
Definition Have : MessageID := x04.
Definition Bitfield : MessageID := x05.
Definition Request : MessageID := x06.
Definition Piece : MessageID := x07.
Definition Cancel : MessageID := x08.
Definition Port : MessageID := x09.

End messageid.

(** ** The connection (net.Conn) and the channels *)

Module peer.

Inductive error : Type :=
| EOF                 (* io.EOF *)
| ErrUnexpectedEOF    (* io.ErrUnexpectedEOF *)
| ErrTimeout          (* the read deadline passed *)
| ErrClosed           (* use of closed network connection *)
| ErrIO.              (* any other I/O failure *)

(** One side of a TCP connection.  [rd] holds the bytes the remote peer
    still delivers; once they are used up a read fails with [rd_end]
    (EOF when the remote closed, a timeout when it went silent).  [wr]
    logs the buffers handed to [conn.Write], oldest first; [wr_err] is
    what [Write] reports. *)
Record Conn : Type := mkConn {
  rd : list byte;
  rd_end : error;
  wr : list (list byte);
  wr_err : option error;
  closed : bool
}.

Definition set_rd (c : Conn) (l : list byte) : Conn :=
  mkConn l (rd_end c) (wr c) (wr_err c) (closed c).

(** conn.SetReadDeadline: fails on a closed connection. *)
Definition SetReadDeadline (c : Conn) : option error :=
  if closed c then Some ErrClosed else None.

(** io.ReadFull(conn, buf) with [len(buf) = n]. *)
Definition ReadFull (n : nat) (c : Conn) : (list byte + error) * Conn :=
  if (n <=? List.length (rd c))%nat
  then (inl (firstn n (rd c)), set_rd c (skipn n (rd c)))
  else (inr (match rd c, rd_end c with
             | [], e => e
             | _ :: _, EOF => ErrUnexpectedEOF
             | _ :: _, e => e
             end),
        set_rd c []).

(** io.CopyN(ioutil.Discard, conn, n): a short source gives its own
    error, io.EOF included. *)
Definition CopyN_Discard (n : nat) (c : Conn) : option error * Conn :=
  if (n <=? List.length (rd c))%nat
  then (None, set_rd c (skipn n (rd c)))
  else (Some (rd_end c), set_rd c []).

(** conn.Write(buf). *)
Definition Conn_Write (c : Conn) (buf : list byte) : option error * Conn :=
  if closed c then (Some ErrClosed, c)
  else (wr_err c, mkConn (rd c) (rd_end c) (wr c ++ [buf]) (wr_err c) false).

(** conn.Close(). *)
Definition Conn_Close (c : Conn) : option error * Conn :=
  if closed c then (Some ErrClosed, c)
  else (None, mkConn (rd c) (rd_end c) (wr c) (wr_err c) true).

(** A [chan struct{}] that is only ever closed. *)
Inductive signal : Type := Open | Closed.

(** close(ch): closing a closed channel panics ([None]). *)
Definition close (ch : signal) : option signal :=
  match ch with
  | Open => Some Closed
  | Closed => None
  end.

(** The message types of package peer whose declarations are not among
    the sources; their fields are those of the composite literals in
    peer.go ([Have{i}], [Piece{index, begin}],
    [Request{piece, begin, length}]). *)
Inductive payload : Type :=
| Choke
| Have (Index : Z)
| Piece (Index Begin : Z)
| Request (Index Begin Length : Z).

(** [Message{p, payload}]: the back-reference to the peer is its id. *)
Record Message : Type := mkMessage { from : list byte; body : payload }.

(** What the other goroutines do at one [select] of the read loop: the
    coordinator receives from [p.messages], or [p.stopC] is found
    closed. *)
Inductive select_case : Type := SendReady | StopReady.

(** The [messages] channel seen from the read loop: what has been
    delivered so far, and which case each coming [select] takes (the
    coordinator keeps receiving once the schedule is used up). *)
Record MsgChan : Type := mkMsgChan {
  delivered : list Message;
  schedule : list select_case
}.

Record Peer : Type := mkPeer {
  conn : Conn;
  id : list byte;
  numPieces : Z;
  amChoking : bool;
  amInterested : bool;
  peerChoking : bool;
  peerInterested : bool;
  bitfield : option bitfield.Bitfield;   (* nil is [None] *)
  messages : MsgChan;
  stopC : signal;
  disconnected : signal
}.

Definition set_conn (p : Peer) (c : Conn) : Peer :=
  mkPeer c (id p) (numPieces p) (amChoking p) (amInterested p)
    (peerChoking p) (peerInterested p) (bitfield p) (messages p)
    (stopC p) (disconnected p).

Definition set_amChoking (p : Peer) (v : bool) : Peer :=
  mkPeer (conn p) (id p) (numPieces p) v (amInterested p)
    (peerChoking p) (peerInterested p) (bitfield p) (messages p)
    (stopC p) (disconnected p).

Definition set_amInterested (p : Peer) (v : bool) : Peer :=
  mkPeer (conn p) (id p) (numPieces p) (amChoking p) v
    (peerChoking p) (peerInterested p) (bitfield p) (messages p)
    (stopC p) (disconnected p).

Definition set_peerChoking (p : Peer) (v : bool) : Peer :=
  mkPeer (conn p) (id p) (numPieces p) (amChoking p) (amInterested p)
    v (peerInterested p) (bitfield p) (messages p)
    (stopC p) (disconnected p).

Definition set_peerInterested (p : Peer) (v : bool) : Peer :=
  mkPeer (conn p) (id p) (numPieces p) (amChoking p) (amInterested p)
    (peerChoking p) v (bitfield p) (messages p)
    (stopC p) (disconnected p).

Definition set_bitfield (p : Peer) (v : option bitfield.Bitfield) : Peer :=
  mkPeer (conn p) (id p) (numPieces p) (amChoking p) (amInterested p)
    (peerChoking p) (peerInterested p) v (messages p)
    (stopC p) (disconnected p).

Definition set_messages (p : Peer) (v : MsgChan) : Peer :=
  mkPeer (conn p) (id p) (numPieces p) (amChoking p) (amInterested p)
    (peerChoking p) (peerInterested p) (bitfield p) v
    (stopC p) (disconnected p).

Definition set_stopC (p : Peer) (v : signal) : Peer :=
  mkPeer (conn p) (id p) (numPieces p) (amChoking p) (amInterested p)
    (peerChoking p) (peerInterested p) (bitfield p) (messages p)
    v (disconnected p).

Definition set_disconnected (p : Peer) (v : signal) : Peer :=
  mkPeer (conn p) (id p) (numPieces p) (amChoking p) (amInterested p)
    (peerChoking p) (peerInterested p) (bitfield p) (messages p)
    (stopC p) v.

Definition connReadTimeout_minutes : Z := 3.

(** Reject requests larger than this size. *)
Definition maxAllowedBlockSize : Z := 32 * 1024.

(** New: the zero value for every field the literal leaves out. *)
Definition New (c : Conn) (pid : list byte) (n : Z) (msgs : MsgChan) : Peer :=
  mkPeer c pid n true false true false None msgs Open Open.

Definition NotifyDisconnect (p : Peer) : signal := disconnected p.

(** How a call ends: it returns, or it panics. *)
Inductive result (A : Type) : Type :=
| Ret (p : Peer) (a : A)
| Panic (p : Peer) (msg : string).
Arguments Ret {A} p a.
Arguments Panic {A} p msg.

(** Close: close(p.stopC), then p.conn.Close(). *)
Definition Close (p : Peer) : result (option error) :=
  match close (stopC p) with
  | None => Panic p "close of closed channel"
  | Some s =>
      let p := set_stopC p s in
      let '(err, c) := Conn_Close (conn p) in
      Ret (set_conn p c) err
  end.

(** writeMessage: a 4-byte length, the id, the payload, in one Write. *)
Definition writeMessage (p : Peer) (mid : messageid.MessageID)
    (payload : list byte) : Peer * option error :=
  let buf := put_uint32 (uint32 (1 + Z.of_nat (List.length payload)))
               ++ [mid] ++ payload in
  let '(err, c) := Conn_Write (conn p) buf in
  (set_conn p c, err).

(** sendBitfield: [None] is a nil [*bitfield.Bitfield], whose [Count]
    dereferences nil. *)
Definition sendBitfield (p : Peer) (lb : option bitfield.Bitfield)
    : result (option error) :=
  match lb with
  | None => Panic p "invalid memory address or nil pointer dereference"
  | Some bf =>
      (* Sending bitfield may be omitted if have no pieces. *)
      if bitfield.Count bf =? 0 then Ret p None
      else let '(p', err) := writeMessage p messageid.Bitfield (bitfield.Bytes bf) in
           Ret p' err
  end.

Definition SendInterested (p : Peer) : Peer * option error :=
  if amInterested p then (p, None)
  else writeMessage (set_amInterested p true) messageid.Interested [].

Definition SendNotInterested (p : Peer) : Peer * option error :=
  if negb (amInterested p) then (p, None)
  else writeMessage (set_amInterested p false) messageid.NotInterested [].

Definition SendChoke (p : Peer) : Peer * option error :=
  if amChoking p then (p, None)
  else writeMessage (set_amChoking p true) messageid.Choke [].

Definition SendUnchoke (p : Peer) : Peer * option error :=
  if negb (amChoking p) then (p, None)
  else writeMessage (set_amChoking p false) messageid.Unchoke [].

Definition SendRequest (p : Peer) (piece begin len : Z) : Peer * option error :=
  writeMessage p messageid.Request
    (put_uint32 piece ++ put_uint32 begin ++ put_uint32 len).

Definition SendPiece (p : Peer) (index begin : Z) (block : list byte)
    : Peer * option error :=
  writeMessage p messageid.Piece (put_uint32 index ++ put_uint32 begin ++ block).

(** ** The read loop *)

(** Why [Run] returned. *)
Inductive reason : Type :=
| IOError (e : error)          (* p.log.Error(err); return *)
| RemoteClosed                 (* io.EOF at the length prefix *)
| Violation (what : string)    (* p.log.Error("..."); return *)
| Stopped.                     (* case <-p.stopC: return *)

(** One pass through the body of the [for] loop. *)
Inductive step : Type :=
| Continue (p : Peer) (first : bool)
| Exit (p : Peer) (why : reason)
| Panics (p : Peer) (msg : string).

(** binary.Read(p.conn, binary.BigEndian, &v) for a uint32 and for a
    one-byte value. *)
Definition read_uint32 (c : Conn) : (Z + error) * Conn :=
  match ReadFull 4 c with
  | (inl bs, c') => (inl (get_uint32 bs), c')
  | (inr e, c') => (inr e, c')
  end.

Definition read_uint8 (c : Conn) : (byte + error) * Conn :=
  match ReadFull 1 c with
  | (inl bs, c') => (inl (hd x00 bs), c')
  | (inr e, c') => (inr e, c')
  end.

(** select { case p.messages <- Message{p, m}: case <-p.stopC: return }:
    [true] when the message went out, [false] when the loop must
    return. *)
Definition select_send (p : Peer) (m : payload) : Peer * bool :=
  let ch := messages p in
  match schedule ch with
  | StopReady :: rest =>
      (set_messages p (mkMsgChan (delivered ch) rest), false)
  | SendReady :: rest =>
      (set_messages p (mkMsgChan (delivered ch ++ [mkMessage (id p) m]) rest), true)
  | [] =>
      (set_messages p (mkMsgChan (delivered ch ++ [mkMessage (id p) m]) []), true)
  end.

(** for i := uint32(0); i < p.bitfield.Len(); i++ { if p.bitfield.Test(i)
    { select ... } }, with [k] passes left and [i] the loop variable. *)
Fixpoint send_haves (k : nat) (i : Z) (bf : bitfield.Bitfield) (p : Peer) : step :=
  match k with
  | O => Continue p false
  | S k' =>
      match bitfield.Test bf i with
      | None => Panics p "index out of bound"
      | Some false => send_haves k' (i + 1) bf p
      | Some true =>
          let '(p', sent) := select_send p (Have i) in
          if sent then send_haves k' (i + 1) bf p' else Exit p' Stopped
      end
  end.

(** The [switch id] of the loop body; [length] is the declared length
    less the id byte.  Every arm that falls out of the switch reaches
    [first = false]. *)
Definition dispatch (p : Peer) (first : bool) (mid : messageid.MessageID)
    (length : Z) : step :=
  if Byte.eqb mid messageid.Choke then
    let p := set_peerChoking p true in
    let '(p', sent) := select_send p Choke in
    if sent then Continue p' false else Exit p' Stopped
  else if Byte.eqb mid messageid.Unchoke then
    Continue (set_peerChoking p false) false
  else if Byte.eqb mid messageid.Interested then
    Continue (set_peerInterested p true) false
  else if Byte.eqb mid messageid.NotInterested then
    Continue (set_peerInterested p false) false
  else if Byte.eqb mid messageid.Have then
    match read_uint32 (conn p) with
    | (inr err, c) => Exit (set_conn p c) (IOError err)
    | (inl index, c) =>
        let p := set_conn p c in
        if numPieces p <=? index then Exit p (Violation "unexpected piece index")
        else
          match bitfield p with
          | None => Panics p "invalid memory address or nil pointer dereference"
          | Some bf =>
              match bitfield.Set_ bf index with
              | None => Panics p "index out of bound"
              | Some bf' =>
                  let p := set_bitfield p (Some bf') in
                  let '(p', sent) := select_send p (Have index) in
                  if sent then Continue p' false else Exit p' Stopped
              end
          end
    end
  else if Byte.eqb mid messageid.Bitfield then
    if negb first then Exit p (Violation "bitfield can only be sent after handshake")
    else
      let numBytes := uint32 (bitfield.NumBytes (numPieces p)) in
      if negb (length =? numBytes) then Exit p (Violation "invalid bitfield length")
      else
        match ReadFull (Z.to_nat numBytes) (conn p) with
        | (inr err, c) => Exit (set_conn p c) (IOError err)
        | (inl bs, c) =>
            let p := set_conn p c in
            let bf := bitfield.NewBytes bs (numPieces p) in
            let p := set_bitfield p (Some bf) in
            send_haves (Z.to_nat (bitfield.Len bf)) 0 bf p
        end
  else if Byte.eqb mid messageid.Piece then
    match ReadFull 8 (conn p) with
    | (inr err, c) => Exit (set_conn p c) (IOError err)
    | (inl bs, c) =>
        let p := set_conn p c in
        let length := uint32 (length - 8) in
        Continue p false
    end
  else
    match CopyN_Discard (Z.to_nat length) (conn p) with
    | (Some err, c) => Exit (set_conn p c) (IOError err)
    | (None, c) => Continue (set_conn p c) false
    end.

Definition loop_body (p : Peer) (first : bool) : step :=
  match SetReadDeadline (conn p) with
  | Some err => Exit p (IOError err)
  | None =>
      match read_uint32 (conn p) with
      | (inr err, c) =>
          Exit (set_conn p c)
            (match err with EOF => RemoteClosed | _ => IOError err end)
      | (inl length, c) =>
          let p := set_conn p c in
          if length =? 0 then Continue p first   (* keep-alive: continue *)
          else
            match read_uint8 (conn p) with
            | (inr err, c) => Exit (set_conn p c) (IOError err)
            | (inl mid, c) => dispatch (set_conn p c) first mid (length - 1)
            end
      end
  end.

(** How [Run] ends; [OutOfFuel] is the model's own and never the result
    of [Run] (see [Run_total]). *)
Inductive outcome : Type :=
| Returned (p : Peer) (why : reason)
| Panicked (p : Peer) (msg : string)
| OutOfFuel (p : Peer).

Fixpoint read_loop (fuel : nat) (p : Peer) (first : bool) : outcome :=
  match fuel with
  | O => OutOfFuel p
  | S k =>
      match loop_body p first with
      | Continue p' first' => read_loop k p' first'
      | Exit p' why => Returned p' why
      | Panics p' msg => Panicked p' msg
      end
  end.

(** [Run] without its deferred call. *)
Definition Run_body (p : Peer) (b : option bitfield.Bitfield) : outcome :=
  match sendBitfield p b with
  | Panic p' msg => Panicked p' msg
  | Ret p' (Some err) => Returned p' (IOError err)
  | Ret p' None => read_loop (S (List.length (rd (conn p')))) p' true
  end.

(** defer close(p.disconnected): runs when the body returns and when it
    panics. *)
Definition deferred_close (r : outcome) : outcome :=
  match r with
  | Returned p why =>
      match close (disconnected p) with
      | Some s => Returned (set_disconnected p s) why
      | None => Panicked p "close of closed channel"
      end
  | Panicked p msg =>
      match close (disconnected p) with
      | Some s => Panicked (set_disconnected p s) msg
      | None => Panicked p "close of closed channel"
      end
  | OutOfFuel p => OutOfFuel p
  end.

(** Run reads and processes incoming messages after handshake. *)
Definition Run (p : Peer) (b : option bitfield.Bitfield) : outcome :=
  deferred_close (Run_body p b).

Definition final (r : outcome) : Peer :=
  match r with
  | Returned p _ | Panicked p _ | OutOfFuel p => p
  end.

(** ID. *)
Definition ID (p : Peer) : list byte := id p.

(** divMod32 on uint32 operands: [a / b, a % b]; a zero divisor is Go's
    integer divide by zero panic ([None]). *)
Definition divMod32 (a b : Z) : option (Z * Z) :=
  if b =? 0 then None else Some (a / b, a mod b).

End peer.
Import peer.

(** ** Traffic used to state the properties *)

(** A message as [writeMessage] lays it out, which is also how it arrives
    from a conforming remote peer. *)
Definition frame (mid : messageid.MessageID) (payload : list byte) : list byte :=
  put_uint32 (uint32 (1 + Z.of_nat (List.length payload))) ++ mid :: payload.

(** The keep-alive: a zero length prefix and nothing else. *)
Definition keep_alive : list byte := put_uint32 0.

(** An open connection on which [bytes] arrive and then reads fail with
    [e]; nothing written yet, writes succeed. *)
Definition incoming (bytes : list byte) (e : error) : Conn :=
  mkConn bytes e [] None false.

(** A coordinator that receives every message and never stops the peer. *)
Definition receiving : MsgChan := mkMsgChan [] [].

(** The length prefix at the head of the unread bytes. *)
Definition declared_length (p : Peer) : Z :=
  get_uint32 (firstn 4 (rd (conn p))).

(** The peer with [l] as the bytes still to be read. *)
Definition unread (p : Peer) (l : list byte) : Peer :=
  set_conn p (set_rd (conn p) l).

(** The indices of the set bits, in increasing order. *)
Definition set_bits (bf : bitfield.Bitfield) : list Z :=
  filter (bitfield.is_set bf)
    (bitfield.indices (Z.to_nat (bitfield.length bf)) 0).

(** The synthetic have messages of peer [p] for the indices [l]. *)
Definition haves (p : Peer) (l : list Z) : list Message :=
  map (fun i => mkMessage (id p) (Have i)) l.

Definition step_peer (s : step) : Peer :=
  match s with
  | Continue p _ | Exit p _ | Panics p _ => p
  end.

(** What a pass of the loop leaves alone: everything but the unread bytes
    (which only shrink), the remote's flags, its bitfield and the
    [messages] channel. *)
Definition reads_only (p p' : Peer) : Prop :=
  id p' = id p /\ numPieces p' = numPieces p /\
  amChoking p' = amChoking p /\ amInterested p' = amInterested p /\
  stopC p' = stopC p /\ disconnected p' = disconnected p /\
  wr (conn p') = wr (conn p) /\ closed (conn p') = closed (conn p) /\
  rd_end (conn p') = rd_end (conn p) /\ wr_err (conn p') = wr_err (conn p) /\
  (List.length (rd (conn p')) <= List.length (rd (conn p)))%nat.

(** A 20-byte peer id, and a freshly constructed peer of an 8-piece torrent
    on whose connection [bytes] arrive before the remote closes it. *)
Definition remote_id : list byte := repeat x41 20.

Definition fresh (bytes : list byte) : Peer :=
  New (incoming bytes EOF) remote_id 8 receiving.

(** The four sends that flip a local flag. *)
Inductive send_op : Type := DoChoke | DoUnchoke | DoInterested | DoNotInterested.

Definition do_send (p : Peer) (o : send_op) : Peer * option error :=
  match o with
  | DoChoke => SendChoke p
  | DoUnchoke => SendUnchoke p
  | DoInterested => SendInterested p
  | DoNotInterested => SendNotInterested p
  end.

(** The sends [ops] one after the other, errors dropped as a caller that
    ignores them would. *)
Fixpoint do_sends (p : Peer) (ops : list send_op) : Peer :=
  match ops with
  | [] => p
  | o :: r => do_sends (fst (do_send p o)) r
  end.

(** The id a send puts on the wire, and the local flags
    [(amChoking, amInterested)] it leaves. *)
Definition op_id (o : send_op) : messageid.MessageID :=
  match o with
  | DoChoke => messageid.Choke
  | DoUnchoke => messageid.Unchoke
  | DoInterested => messageid.Interested
  | DoNotInterested => messageid.NotInterested
  end.

Definition op_flags (o : send_op) (st : bool * bool) : bool * bool :=
  match o with
  | DoChoke => (true, snd st)
  | DoUnchoke => (false, snd st)
  | DoInterested => (fst st, true)
  | DoNotInterested => (fst st, false)
  end.

Definition same_flags (x y : bool * bool) : bool :=
  Bool.eqb (fst x) (fst y) && Bool.eqb (snd x) (snd y).

(** A message the read loop of [p] may hand to the coordinator: it names
    [p], and it is a choke or a have for a piece of the torrent. *)
Definition well_addressed (p : Peer) (m : Message) : Prop :=
  from m = id p /\
  match body m with
  | Choke => True
  | Have i => 0 <= i < numPieces p
  | Piece _ _ | Request _ _ _ => False
  end.

(** [delivers p p' new]: from [p] to [p'] the messages [new] were
    delivered, each of them well addressed. *)
Definition delivers (p p' : Peer) (new : list Message) : Prop :=
  delivered (messages p') = delivered (messages p) ++ new /\
  Forall (well_addressed p) new.

(** * Properties *)

(** ** Words on the wire *)

Lemma byte_val_range (x : byte) : 0 <= byte_val x < 256.
Proof.
  unfold byte_val. pose proof (Byte.to_N_bounded x). lia.
Qed.

Lemma byte_val_of (z : Z) : byte_val (byte_of z) = z mod 256.
Proof.
  unfold byte_val, byte_of.
  assert (Hr : 0 <= z mod 256 < 256) by (apply Z.mod_pos_bound; lia).
  destruct (Byte.of_N (Z.to_N (z mod 256))) as [x|] eqn:E.
  - apply Byte.to_of_N in E. rewrite E. lia.
  - apply Byte.of_N_None_iff in E. lia.
Qed.

Lemma get_put_uint32 (z : Z) : 0 <= z < 2 ^ 32 -> get_uint32 (put_uint32 z) = z.
Proof.
  intros H. unfold get_uint32, put_uint32.
  cbv [fold_left]. rewrite !byte_val_of.
  assert (E24 : 2 ^ 24 = 256 * 256 * 256) by reflexivity.
  assert (E16 : 2 ^ 16 = 256 * 256) by reflexivity.
  assert (E8 : 2 ^ 8 = 256) by reflexivity.
  assert (E32 : 2 ^ 32 = 256 * 256 * 256 * 256) by reflexivity.
  rewrite E24, E16, E8. rewrite E32 in H. clear E24 E16 E8 E32.
  rewrite <- !Z.div_div by lia.
  pose proof (Z.div_mod z 256 ltac:(lia)).
  pose proof (Z.div_mod (z / 256) 256 ltac:(lia)).
  pose proof (Z.div_mod (z / 256 / 256) 256 ltac:(lia)).
  assert (0 <= z / 256 / 256 / 256 < 256).
  { split.
    - repeat apply Z.div_pos; lia.
    - repeat (apply Z.div_lt_upper_bound; [lia|]). lia. }
  rewrite (Z.mod_small (z / 256 / 256 / 256) 256) by lia.
  lia.
Qed.

Lemma uint32_small (z : Z) : 0 <= z < 2 ^ 32 -> uint32 z = z.
Proof. intros H. unfold uint32. apply Z.mod_small. exact H. Qed.

Lemma NumBytes_uint32 (n : Z) :
  0 <= n < 2 ^ 32 -> uint32 (bitfield.NumBytes n) = bitfield.NumBytes n.
Proof.
  intros H. apply uint32_small. unfold bitfield.NumBytes. split.
  - apply Z.div_pos; lia.
  - apply Z.div_lt_upper_bound; lia.
Qed.

(** ** What the read loop leaves alone *)

Lemma reads_only_refl (p : Peer) : reads_only p p.
Proof. unfold reads_only. repeat split; auto. Qed.

Lemma reads_only_trans (p q r : Peer) :
  reads_only p q -> reads_only q r -> reads_only p r.
Proof.
  unfold reads_only. intros Hpq Hqr.
  decompose [and] Hpq. decompose [and] Hqr.
  repeat split; try congruence. lia.
Qed.

Lemma reads_only_unread (p : Peer) (n : nat) :
  reads_only p (set_conn p (set_rd (conn p) (skipn n (rd (conn p))))).
Proof.
  unfold reads_only. simpl. repeat split; auto.
  rewrite List.length_skipn. lia.
Qed.

Lemma reads_only_drained (p : Peer) :
  reads_only p (set_conn p (set_rd (conn p) [])).
Proof.
  unfold reads_only. simpl. repeat split; auto. lia.
Qed.

Lemma ReadFull_reads_only (n : nat) (p : Peer) :
  reads_only p (set_conn p (snd (ReadFull n (conn p)))).
Proof.
  unfold ReadFull. destruct (n <=? List.length (rd (conn p)))%nat; simpl.
  - apply reads_only_unread.
  - apply reads_only_drained.
Qed.

Lemma read_uint32_reads_only (p : Peer) :
  reads_only p (set_conn p (snd (read_uint32 (conn p)))).
Proof.
  unfold read_uint32. pose proof (ReadFull_reads_only 4 p) as H.
  destruct (ReadFull 4 (conn p)) as [[bs|e] c]; exact H.
Qed.

Lemma read_uint8_reads_only (p : Peer) :
  reads_only p (set_conn p (snd (read_uint8 (conn p)))).
Proof.
  unfold read_uint8. pose proof (ReadFull_reads_only 1 p) as H.
  destruct (ReadFull 1 (conn p)) as [[bs|e] c]; exact H.
Qed.

Lemma CopyN_Discard_reads_only (n : nat) (p : Peer) :
  reads_only p (set_conn p (snd (CopyN_Discard n (conn p)))).
Proof.
  unfold CopyN_Discard. destruct (n <=? List.length (rd (conn p)))%nat; simpl.
  - apply reads_only_unread.
  - apply reads_only_drained.
Qed.

Lemma select_send_reads_only (p : Peer) (m : payload) :
  reads_only p (fst (select_send p m)).
Proof.
  unfold select_send.
  destruct (schedule (messages p)) as [|[|] rest]; simpl;
    unfold reads_only; simpl; repeat split; auto.
Qed.

Lemma send_haves_reads_only (k : nat) :
  forall i bf p, reads_only p (step_peer (send_haves k i bf p)).
Proof.
  induction k as [|k IH]; intros i bf p; simpl.
  - apply reads_only_refl.
  - destruct (bitfield.Test bf i) as [[|]|]; simpl.
    + pose proof (select_send_reads_only p (Have i)) as H.
      destruct (select_send p (Have i)) as [p' sent]. simpl in H.
      destruct sent; simpl.
      * eapply reads_only_trans; [exact H | apply IH].
      * exact H.
    + apply IH.
    + apply reads_only_refl.
Qed.

Lemma set_flags_reads_only (p : Peer) :
  (forall v, reads_only p (set_peerChoking p v)) /\
  (forall v, reads_only p (set_peerInterested p v)) /\
  (forall v, reads_only p (set_bitfield p v)).
Proof.
  unfold reads_only; simpl; repeat split; auto.
Qed.

Lemma dispatch_reads_only (p : Peer) (first : bool)
    (mid : messageid.MessageID) (len : Z) :
  reads_only p (step_peer (dispatch p first mid len)).
Proof.
  destruct (set_flags_reads_only p) as (Hc & Hi & Hb).
  unfold dispatch.
  destruct (Byte.eqb mid messageid.Choke).
  { pose proof (select_send_reads_only (set_peerChoking p true) Choke) as H.
    destruct (select_send (set_peerChoking p true) Choke) as [p' sent].
    simpl in H. destruct sent; simpl;
      (eapply reads_only_trans; [apply Hc | exact H]). }
  destruct (Byte.eqb mid messageid.Unchoke); [apply Hc|].
  destruct (Byte.eqb mid messageid.Interested); [apply Hi|].
  destruct (Byte.eqb mid messageid.NotInterested); [apply Hi|].
  destruct (Byte.eqb mid messageid.Have).
  { pose proof (read_uint32_reads_only p) as H.
    destruct (read_uint32 (conn p)) as [[index|e] c]; simpl in H; [|exact H].
    destruct (numPieces (set_conn p c) <=? index); [exact H|].
    destruct (bitfield (set_conn p c)) as [bf|]; [|exact H].
    destruct (bitfield.Set_ bf index) as [bf'|]; [|exact H].
    pose proof (select_send_reads_only
                  (set_bitfield (set_conn p c) (Some bf')) (Have index)) as H'.
    destruct (select_send (set_bitfield (set_conn p c) (Some bf')) (Have index))
      as [p' sent].
    simpl in H'.
    assert (reads_only p p').
    { eapply reads_only_trans; [exact H|].
      eapply reads_only_trans; [|exact H'].
      apply set_flags_reads_only. }
    destruct sent; assumption. }
  destruct (Byte.eqb mid messageid.Bitfield).
  { destruct (negb first); [apply reads_only_refl|].
    destruct (negb (len =? uint32 (bitfield.NumBytes (numPieces p))));
      [apply reads_only_refl|].
    pose proof (ReadFull_reads_only
                  (Z.to_nat (uint32 (bitfield.NumBytes (numPieces p)))) p) as H.
    destruct (ReadFull (Z.to_nat (uint32 (bitfield.NumBytes (numPieces p)))) (conn p))
      as [[bs|e] c]; simpl in H; [|exact H].
    eapply reads_only_trans; [exact H|].
    eapply reads_only_trans; [|apply send_haves_reads_only].
    apply set_flags_reads_only. }
  destruct (Byte.eqb mid messageid.Piece).
  { pose proof (ReadFull_reads_only 8 p) as H.
    destruct (ReadFull 8 (conn p)) as [[bs|e] c]; exact H. }
  pose proof (CopyN_Discard_reads_only (Z.to_nat len) p) as H.
  destruct (CopyN_Discard (Z.to_nat len) (conn p)) as [[e|] c]; exact H.
Qed.

Lemma set_conn_twice (p : Peer) (c c' : Conn) :
  set_conn (set_conn p c) c' = set_conn p c'.
Proof. reflexivity. Qed.

Lemma loop_body_reads_only (p : Peer) (first : bool) :
  reads_only p (step_peer (loop_body p first)).
Proof.
  unfold loop_body.
  destruct (SetReadDeadline (conn p)); [apply reads_only_refl|].
  pose proof (read_uint32_reads_only p) as H.
  destruct (read_uint32 (conn p)) as [[len|e] c]; simpl in H; [|exact H].
  destruct (len =? 0); [exact H|].
  pose proof (read_uint8_reads_only (set_conn p c)) as H'.
  destruct (read_uint8 (conn (set_conn p c))) as [[mid|e] c']; simpl in H'.
  - eapply reads_only_trans; [exact H|].
    eapply reads_only_trans; [exact H'|].
    rewrite set_conn_twice. apply dispatch_reads_only.
  - eapply reads_only_trans; [exact H | exact H'].
Qed.

(** A pass that does not return has read a whole length prefix. *)
Lemma loop_body_progress (p p' : Peer) (first first' : bool) :
  loop_body p first = Continue p' first' ->
  (List.length (rd (conn p')) + 4 <= List.length (rd (conn p)))%nat.
Proof.
  unfold loop_body.
  destruct (SetReadDeadline (conn p)); [discriminate|].
  unfold read_uint32 at 1. unfold ReadFull at 1.
  destruct (4 <=? List.length (rd (conn p)))%nat eqn:E; [|discriminate].
  apply Nat.leb_le in E.
  set (p1 := set_conn p (set_rd (conn p) (skipn 4 (rd (conn p))))).
  assert (H1 : (List.length (rd (conn p1)) + 4 <= List.length (rd (conn p)))%nat).
  { subst p1. unfold set_conn, set_rd. cbn [conn rd].
    rewrite List.length_skipn. lia. }
  destruct (get_uint32 (firstn 4 (rd (conn p))) =? 0).
  { intros H. injection H as <- _. exact H1. }
  pose proof (read_uint8_reads_only p1) as H'.
  destruct (read_uint8 (conn p1)) as [[mid|e] c']; simpl in H'; [|discriminate].
  intros H.
  pose proof (dispatch_reads_only (set_conn p1 c') first mid
                (get_uint32 (firstn 4 (rd (conn p))) - 1)) as Hd.
  rewrite H in Hd. simpl in Hd.
  unfold reads_only in H', Hd. decompose [and] H'. decompose [and] Hd. lia.
Qed.

Lemma read_loop_reads_only (fuel : nat) :
  forall p first, reads_only p (final (read_loop fuel p first)).
Proof.
  induction fuel as [|k IH]; intros p first; simpl.
  - apply reads_only_refl.
  - pose proof (loop_body_reads_only p first) as H.
    destruct (loop_body p first) as [p' f'|p' why|p' msg]; simpl in *; auto.
    eapply reads_only_trans; [exact H | apply IH].
Qed.

(** The loop returns or panics once it has more fuel than unread bytes. *)
Lemma read_loop_total (fuel : nat) :
  forall p first,
    (List.length (rd (conn p)) < fuel)%nat ->
    forall q, read_loop fuel p first <> OutOfFuel q.
Proof.
  induction fuel as [|k IH]; intros p first Hlen q; [lia|]. simpl.
  destruct (loop_body p first) as [p' f'|p' why|p' msg] eqn:E;
    try discriminate.
  apply loop_body_progress in E. apply IH. lia.
Qed.

(** More fuel than needed changes nothing. *)
Lemma read_loop_fuel (fuel : nat) :
  forall p first extra,
    (List.length (rd (conn p)) < fuel)%nat ->
    read_loop (fuel + extra) p first = read_loop fuel p first.
Proof.
  induction fuel as [|k IH]; intros p first extra Hlen; [lia|]. simpl.
  destruct (loop_body p first) as [p' f'|p' why|p' msg] eqn:E; auto.
  apply loop_body_progress in E. apply IH. lia.
Qed.

Lemma sendBitfield_unread (p : Peer) (b : option bitfield.Bitfield) :
  forall p' e, sendBitfield p b = Ret p' e ->
    rd (conn p') = rd (conn p) /\ disconnected p' = disconnected p.
Proof.
  unfold sendBitfield, writeMessage, Conn_Write. intros p' e.
  destruct b as [bf|]; [|discriminate].
  destruct (bitfield.Count bf =? 0).
  - intros H. injection H as <- _. auto.
  - destruct (closed (conn p)); simpl; intros H; injection H as <- _; auto.
Qed.

(** [Run] always returns or panics: the model never runs out of fuel. *)
Lemma Run_body_total (p : Peer) (b : option bitfield.Bitfield) :
  forall q, Run_body p b <> OutOfFuel q.
Proof.
  intros q. unfold Run_body.
  destruct (sendBitfield p b) as [p' [e|]|p' msg]; try discriminate.
  apply read_loop_total. lia.
Qed.

Lemma Run_total (p : Peer) (b : option bitfield.Bitfield) :
  forall q, Run p b <> OutOfFuel q.
Proof.
  intros q. unfold Run, deferred_close.
  pose proof (Run_body_total p b) as H.
  destruct (Run_body p b) as [p' why|p' msg|p'].
  - destruct (close (disconnected p')); discriminate.
  - destruct (close (disconnected p')); discriminate.
  - exfalso. exact (H p' eq_refl).
Qed.

(** ** Close *)

(** C10: a second [Close] on the same peer panics: once a first [Close]
    has returned, [stopC] is closed, and closing it again is a panic.
    [Close] is not idempotent. *)
Theorem Close_twice_panics (p p1 : Peer) (err : option error) :
  Close p = Ret p1 err ->
  Close p1 = Panic p1 "close of closed channel".
Proof.
  unfold Close. destruct (stopC p) eqn:E; cbn [close]; [|discriminate].
  destruct (Conn_Close (conn (set_stopC p Closed))) as [e c].
  intros H. injection H as <- _. reflexivity.
Qed.

Lemma Close_twice_panics_witness :
  exists p1,
    Close (fresh []) = Ret p1 None /\
    Close p1 = Panic p1 "close of closed channel".
Proof.
  eexists. split.
  - reflexivity.
  - apply (Close_twice_panics (fresh []) _ None). reflexivity.
Defined.

(** ** Send operations *)

(** C5, as the code has it: a choke sent while [amChoking] is already true
    does no I/O and changes nothing; a peer that is not choking writes
    exactly one choke message for two calls in a row; and a freshly
    constructed peer, which starts out choking, is left as it was by two
    calls, nothing written. *)
Theorem SendChoke_redundant_no_io (p : Peer) :
  (amChoking p = true -> SendChoke p = (p, None)) /\
  (amChoking p = false -> closed (conn p) = false ->
     wr (conn (fst (SendChoke p))) = wr (conn p) ++ [frame messageid.Choke []] /\
     SendChoke (fst (SendChoke p)) = (fst (SendChoke p), None)) /\
  (forall c pid n msgs,
     SendChoke (fst (SendChoke (New c pid n msgs))) = (New c pid n msgs, None)).
Proof.
  split; [|split].
  - intros H. unfold SendChoke. rewrite H. reflexivity.
  - intros H Hc.
    assert (E : SendChoke p = writeMessage (set_amChoking p true) messageid.Choke [])
      by (unfold SendChoke; rewrite H; reflexivity).
    rewrite E. unfold writeMessage, Conn_Write.
    cbn [conn set_amChoking set_conn]. rewrite Hc.
    split; reflexivity.
  - intros. reflexivity.
Qed.

Lemma SendChoke_redundant_no_io_witness :
  SendChoke (fresh []) = (fresh [], None) /\
  wr (conn (fst (SendChoke (set_amChoking (fresh []) false))))
  = [[x00; x00; x00; x01; x00]].
Proof.
  split.
  - apply (proj1 (SendChoke_redundant_no_io (fresh []))). reflexivity.
  - apply (proj1 (proj2 (SendChoke_redundant_no_io
                           (set_amChoking (fresh []) false)))); reflexivity.
Defined.

(** C5 as stated fails: on a freshly constructed peer two [SendChoke] in a
    row put no message on the wire, not one. *)
Lemma SendChoke_twice_fresh_counterexample :
  ~ (exists m,
       wr (conn (fst (SendChoke (fst (SendChoke (fresh []))))))
       = wr (conn (fresh [])) ++ [m]).
Proof.
  intros [m H]. vm_compute in H. discriminate H.
Qed.

(** ** The local bitfield *)

Lemma Count_nonneg (bf : bitfield.Bitfield) : 0 <= bitfield.Count bf.
Proof. unfold bitfield.Count. lia. Qed.

Lemma deferred_close_keeps_conn (r : outcome) :
  conn (final (deferred_close r)) = conn (final r).
Proof.
  destruct r as [p why|p msg|p]; simpl; auto;
    destruct (close (disconnected p)); reflexivity.
Qed.

Lemma read_loop_wr (fuel : nat) (p : Peer) (first : bool) :
  wr (conn (final (read_loop fuel p first))) = wr (conn p).
Proof.
  pose proof (read_loop_reads_only fuel p first) as H.
  unfold reads_only in H. decompose [and] H. assumption.
Qed.

(** C8: the only thing [Run] writes is the local bitfield, as its first
    outgoing message, and it writes it exactly when the local bitfield has
    a set bit (and the connection is still open); with no piece owned, or
    a nil bitfield, nothing at all is written. *)
Theorem Run_sends_bitfield_iff_pieces (p : Peer) (b : option bitfield.Bitfield) :
  wr (conn (final (Run p b))) =
  wr (conn p) ++
    match b with
    | Some bf =>
        if (0 <? bitfield.Count bf) && negb (closed (conn p))
        then [frame messageid.Bitfield (bitfield.Bytes bf)]
        else []
    | None => []
    end.
Proof.
  unfold Run. rewrite deferred_close_keeps_conn.
  unfold Run_body, sendBitfield.
  destruct b as [bf|]; [|simpl; rewrite app_nil_r; reflexivity].
  pose proof (Count_nonneg bf) as Hc.
  destruct (bitfield.Count bf =? 0) eqn:E.
  - apply Z.eqb_eq in E.
    replace (0 <? bitfield.Count bf) with false
      by (symmetry; apply Z.ltb_ge; lia).
    simpl andb. cbv iota. rewrite app_nil_r.
    apply read_loop_wr.
  - apply Z.eqb_neq in E.
    replace (0 <? bitfield.Count bf) with true
      by (symmetry; apply Z.ltb_lt; lia).
    unfold writeMessage, Conn_Write, frame.
    destruct (closed (conn p)) eqn:Ecl; simpl andb; cbv iota.
    + simpl. rewrite app_nil_r. reflexivity.
    + destruct (wr_err (conn p)) as [e|]; cbv beta iota zeta.
      * reflexivity.
      * rewrite read_loop_wr. reflexivity.
Qed.

(** ** The disconnect signal *)

(** C9: whatever arrives and however the loop ends (a read that times out
    or fails, EOF, a protocol violation, a stop, a panic), [Run] ends, and
    the [disconnected] channel, open while the body runs, is closed by
    the deferred call: it fires once. *)
Theorem Run_fires_disconnect_once (p : Peer) (b : option bitfield.Bitfield) :
  NotifyDisconnect p = Open ->
  NotifyDisconnect (final (Run_body p b)) = Open /\
  NotifyDisconnect (final (Run p b)) = Closed /\
  ((exists why, Run p b = Returned (set_disconnected (final (Run_body p b)) Closed) why) \/
   (exists msg, Run p b = Panicked (set_disconnected (final (Run_body p b)) Closed) msg)).
Proof.
  unfold NotifyDisconnect. intros Hopen.
  assert (Hbody : disconnected (final (Run_body p b)) = Open).
  { unfold Run_body.
    destruct (sendBitfield p b) as [p' e|p' msg] eqn:E.
    - apply sendBitfield_unread in E. destruct E as [_ Hd].
      destruct e as [e|]; cbn [final].
      + rewrite Hd. exact Hopen.
      + pose proof (read_loop_reads_only (S (List.length (rd (conn p')))) p' true) as H.
        unfold reads_only in H. decompose [and] H.
        match goal with
        | Hx : disconnected _ = disconnected p' |- _ => rewrite Hx
        end.
        rewrite Hd. exact Hopen.
    - unfold sendBitfield in E. destruct b as [bf|].
      + destruct (bitfield.Count bf =? 0); [discriminate|].
        destruct (writeMessage p messageid.Bitfield (bitfield.Bytes bf));
          discriminate.
      + injection E as <- _. exact Hopen. }
  pose proof (Run_body_total p b) as Htot.
  unfold Run. destruct (Run_body p b) as [q why|q msg|q]; simpl in *.
  - rewrite Hbody. simpl. repeat split; eauto.
  - rewrite Hbody. simpl. repeat split; eauto.
  - exfalso. exact (Htot q eq_refl).
Qed.

Lemma Run_fires_disconnect_once_witness :
  NotifyDisconnect (final (Run (fresh keep_alive) (Some (bitfield.New 8)))) = Closed.
Proof.
  apply (Run_fires_disconnect_once (fresh keep_alive) (Some (bitfield.New 8))).
  reflexivity.
Defined.

(** The exit paths one by one: a silent peer (read timeout), a remote that
    closes, a connection cut inside a message, a violation; each time the
    signal ends up closed. *)
Example Run_exit_paths :
  let silent := New (incoming [] ErrTimeout) remote_id 8 receiving in
  let own := Some (bitfield.New 8) in
  Run silent own = Returned (set_disconnected silent Closed) (IOError ErrTimeout) /\
  Run (fresh []) own = Returned (set_disconnected (fresh []) Closed) RemoteClosed /\
  Run (fresh [x00; x00]) own
  = Returned (set_disconnected (fresh []) Closed) (IOError ErrUnexpectedEOF) /\
  Run (fresh (frame messageid.Bitfield [])) own
  = Returned (set_disconnected (fresh []) Closed)
      (Violation "invalid bitfield length").
Proof.
  vm_compute. repeat split; reflexivity.
Qed.

(** ** Reading one message *)

Lemma ReadFull_app (n : nat) (bs rest : list byte) (c : Conn) :
  List.length bs = n -> rd c = bs ++ rest ->
  ReadFull n c = (inl bs, set_rd c rest).
Proof.
  intros Hn Hrd. unfold ReadFull. rewrite Hrd.
  replace (n <=? List.length (bs ++ rest))%nat with true
    by (symmetry; apply Nat.leb_le; rewrite List.length_app; lia).
  rewrite List.firstn_app, List.skipn_app.
  replace (n - List.length bs)%nat with 0%nat by lia.
  rewrite List.firstn_all2, List.skipn_all2 by lia.
  simpl. rewrite app_nil_r. reflexivity.
Qed.

Lemma read_uint32_put (z : Z) (rest : list byte) (c : Conn) :
  0 <= z < 2 ^ 32 -> rd c = put_uint32 z ++ rest ->
  read_uint32 c = (inl z, set_rd c rest).
Proof.
  intros Hz Hrd. unfold read_uint32.
  rewrite (ReadFull_app 4 (put_uint32 z) rest c eq_refl Hrd).
  rewrite get_put_uint32 by exact Hz. reflexivity.
Qed.

Lemma read_uint8_cons (x : byte) (rest : list byte) (c : Conn) :
  rd c = x :: rest -> read_uint8 c = (inl x, set_rd c rest).
Proof.
  intros Hrd. unfold read_uint8.
  rewrite (ReadFull_app 1 [x] rest c eq_refl Hrd). reflexivity.
Qed.

(** A zero length prefix is a keep-alive: the pass ends there, [first]
    untouched. *)
Lemma loop_body_keep_alive (p : Peer) (first : bool) (rest : list byte) :
  closed (conn p) = false ->
  rd (conn p) = keep_alive ++ rest ->
  loop_body p first = Continue (unread p rest) first.
Proof.
  intros Hc Hrd. unfold loop_body, SetReadDeadline. rewrite Hc.
  rewrite (read_uint32_put 0 rest (conn p)) by (auto; lia).
  reflexivity.
Qed.

(** A non-zero length prefix [L] and an id byte lead to the switch, with
    [L - 1] as the remaining length. *)
Lemma loop_body_header (p : Peer) (first : bool) (L : Z)
    (mid : messageid.MessageID) (rest : list byte) :
  closed (conn p) = false ->
  0 < L < 2 ^ 32 ->
  rd (conn p) = put_uint32 L ++ mid :: rest ->
  loop_body p first = dispatch (unread p rest) first mid (L - 1).
Proof.
  intros Hc HL Hrd. unfold loop_body, SetReadDeadline. rewrite Hc.
  rewrite (read_uint32_put L (mid :: rest) (conn p)) by (auto; lia).
  replace (L =? 0) with false by (symmetry; apply Z.eqb_neq; lia).
  rewrite (read_uint8_cons mid rest) by reflexivity.
  reflexivity.
Qed.

(** Takes the arm of the [switch] for an id that is a constant. *)
Ltac switch_on_id :=
  unfold dispatch;
  repeat match goal with
    | |- context [Byte.eqb ?a ?b] =>
        let v := eval vm_compute in (Byte.eqb a b) in
        change (Byte.eqb a b) with v
    end;
  cbv iota.

(** ** have *)

(** C7: a have whose index is [numPieces] or more ends the loop with a
    violation; [Run] then returns with the disconnect signal fired, and
    nothing was delivered to the coordinator nor recorded in the
    bitfield. *)
Theorem have_out_of_range_closes (p : Peer) (first : bool) (L index : Z)
    (rest : list byte) (fuel : nat) :
  closed (conn p) = false ->
  disconnected p = Open ->
  0 < L < 2 ^ 32 ->
  0 <= index < 2 ^ 32 ->
  numPieces p <= index ->
  rd (conn p) = put_uint32 L ++ messageid.Have :: put_uint32 index ++ rest ->
  loop_body p first = Exit (unread p rest) (Violation "unexpected piece index") /\
  deferred_close (read_loop (S fuel) p first)
  = Returned (set_disconnected (unread p rest) Closed)
      (Violation "unexpected piece index") /\
  messages (unread p rest) = messages p /\
  bitfield (unread p rest) = bitfield p.
Proof.
  intros Hc Hd HL Hi Hn Hrd.
  assert (E : loop_body p first
              = Exit (unread p rest) (Violation "unexpected piece index")).
  { rewrite (loop_body_header p first L messageid.Have
               (put_uint32 index ++ rest) Hc HL Hrd).
    switch_on_id.
    rewrite (read_uint32_put index rest) by (auto; reflexivity).
    cbv beta iota zeta.
    replace (numPieces _ <=? index) with true
      by (symmetry; apply Z.leb_le; exact Hn).
    reflexivity. }
  split; [exact E|]. split; [|split; reflexivity].
  cbn [read_loop]. rewrite E. cbn [deferred_close].
  change (disconnected (unread p rest)) with (disconnected p).
  rewrite Hd. reflexivity.
Qed.

Lemma have_out_of_range_closes_witness :
  loop_body (fresh (frame messageid.Have (put_uint32 8))) true
  = Exit (unread (fresh (frame messageid.Have (put_uint32 8))) [])
      (Violation "unexpected piece index").
Proof.
  apply (have_out_of_range_closes
           (fresh (frame messageid.Have (put_uint32 8))) true 5 8 [] 0);
    try reflexivity; lia.
Defined.

Lemma nth_set_nth (f : byte -> byte) (l : list byte) :
  forall k, (k < List.length l)%nat ->
    nth k (bitfield.set_nth k f l) x00 = f (nth k l x00).
Proof.
  induction l as [|x r IH]; intros k Hk; simpl in Hk; [lia|].
  destruct k as [|k]; simpl; [reflexivity|]. apply IH. lia.
Qed.

(** Modelled [Set] then [Test]: the bit that was set tests true, provided
    the bitfield has the byte that holds it. *)
Lemma Test_Set_ (bf bf' : bitfield.Bitfield) (i : Z) :
  bitfield.Set_ bf i = Some bf' ->
  (Z.to_nat (i / 8) < List.length (bitfield.b bf))%nat ->
  bitfield.Test bf' i = Some true.
Proof.
  unfold bitfield.Set_, bitfield.Test, bitfield.in_range.
  destruct ((0 <=? i) && (i <? bitfield.length bf)) eqn:E; [|discriminate].
  intros H Hk. injection H as <-. cbn [bitfield.length bitfield.b].
  rewrite E. f_equal.
  rewrite nth_set_nth by exact Hk.
  rewrite byte_val_of.
  assert (Hm : 0 <= 7 - i mod 8 < 8)
    by (pose proof (Z.mod_pos_bound i 8 ltac:(lia)); lia).
  change 256 with (2 ^ 8).
  rewrite Z.mod_pow2_bits_low by lia.
  rewrite Z.lor_spec, Z.shiftl_spec by lia.
  rewrite Z.sub_diag. change (Z.testbit 1 0) with true.
  apply orb_true_r.
Qed.

(** A have that arrives while the peer's bitfield is still nil panics,
    whatever the index in range. *)
Lemma have_on_nil_bitfield (p : Peer) (first : bool) (L index : Z)
    (rest : list byte) :
  closed (conn p) = false ->
  0 < L < 2 ^ 32 ->
  0 <= index < numPieces p -> numPieces p <= 2 ^ 32 ->
  bitfield p = None ->
  rd (conn p) = put_uint32 L ++ messageid.Have :: put_uint32 index ++ rest ->
  loop_body p first
  = Panics (unread p rest) "invalid memory address or nil pointer dereference".
Proof.
  intros Hc HL Hi Hn Hb Hrd.
  rewrite (loop_body_header p first L messageid.Have
             (put_uint32 index ++ rest) Hc HL Hrd).
  switch_on_id.
  rewrite (read_uint32_put index rest) by (try reflexivity; lia).
  cbv beta iota zeta.
  replace (numPieces _ <=? index) with false
    by (symmetry; apply Z.leb_gt; apply Hi).
  change (bitfield (set_conn (unread p (put_uint32 index ++ rest))
                      (set_rd (conn (unread p (put_uint32 index ++ rest))) rest)))
    with (bitfield p).
  rewrite Hb. reflexivity.
Qed.

(** Once the peer has a bitfield of [numPieces] bits, a have in range sets
    its bit and, the coordinator receiving, is forwarded; the loop goes
    on. *)
Lemma have_on_bitfield (p : Peer) (first : bool) (L index : Z)
    (rest : list byte) (bf : bitfield.Bitfield) :
  closed (conn p) = false ->
  0 < L < 2 ^ 32 ->
  0 <= index < numPieces p -> numPieces p <= 2 ^ 32 ->
  bitfield p = Some bf -> bitfield.length bf = numPieces p ->
  hd SendReady (schedule (messages p)) = SendReady ->
  rd (conn p) = put_uint32 L ++ messageid.Have :: put_uint32 index ++ rest ->
  exists bf' p',
    bitfield.Set_ bf index = Some bf' /\
    loop_body p first = Continue p' false /\
    bitfield p' = Some bf' /\
    delivered (messages p') = delivered (messages p) ++ [mkMessage (id p) (Have index)] /\
    rd (conn p') = rest.
Proof.
  intros Hc HL Hi Hn Hb Hlen Hs Hrd.
  rewrite (loop_body_header p first L messageid.Have
             (put_uint32 index ++ rest) Hc HL Hrd).
  switch_on_id.
  rewrite (read_uint32_put index rest) by (try reflexivity; lia).
  cbv beta iota zeta.
  replace (numPieces _ <=? index) with false
    by (symmetry; apply Z.leb_gt; apply Hi).
  change (bitfield (set_conn (unread p (put_uint32 index ++ rest))
                      (set_rd (conn (unread p (put_uint32 index ++ rest))) rest)))
    with (bitfield p).
  rewrite Hb.
  assert (Hset : exists bf', bitfield.Set_ bf index = Some bf').
  { unfold bitfield.Set_, bitfield.in_range.
    replace (0 <=? index) with true by (symmetry; apply Z.leb_le; lia).
    replace (index <? bitfield.length bf) with true
      by (symmetry; apply Z.ltb_lt; lia).
    simpl. eauto. }
  destruct Hset as [bf' Hset]. rewrite Hset.
  exists bf'.
  unfold select_send.
  cbn [messages set_bitfield set_conn unread].
  destruct (schedule (messages p)) as [|[|] sch]; try discriminate Hs;
    eexists; (split; [reflexivity|]); (split; [reflexivity|]);
    repeat split; reflexivity.
Qed.

(** ** bitfield *)

Lemma send_haves_first (k : nat) :
  forall i bf p p' first',
    send_haves k i bf p = Continue p' first' -> first' = false.
Proof.
  induction k as [|k IH]; intros i bf p p' first'; simpl.
  - intros H. injection H as _ <-. reflexivity.
  - destruct (bitfield.Test bf i) as [[|]|]; try discriminate.
    + destruct (select_send p (Have i)) as [q sent].
      destruct sent; [apply IH | discriminate].
    + apply IH.
Qed.

(** Every arm of the switch that falls through clears [first]. *)
Lemma dispatch_first (p p' : Peer) (first first' : bool)
    (mid : messageid.MessageID) (len : Z) :
  dispatch p first mid len = Continue p' first' -> first' = false.
Proof.
  unfold dispatch.
  repeat match goal with
    | |- context [Byte.eqb mid ?c] => destruct (Byte.eqb mid c)
    end;
  repeat match goal with
    | |- (let '(_, _) := ?x in _) = _ -> _ => destruct x as [? []]
    | |- match ?x with _ => _ end = _ -> _ => destruct x
    | |- (if ?x then _ else _) = _ -> _ => destruct x
    end;
  try discriminate;
  try (intros H; injection H as _ <-; reflexivity).
  apply send_haves_first.
Qed.

(** [first] after a pass that falls through: still what it was when the
    pass read a keep-alive, false after any other message. *)
Lemma loop_body_first (q p : Peer) (qfirst first : bool) :
  loop_body q qfirst = Continue p first ->
  first = qfirst && (declared_length q =? 0).
Proof.
  unfold loop_body, declared_length.
  destruct (SetReadDeadline (conn q)); [discriminate|].
  unfold read_uint32 at 1. unfold ReadFull at 1.
  destruct (4 <=? List.length (rd (conn q)))%nat; [|discriminate].
  destruct (get_uint32 (firstn 4 (rd (conn q))) =? 0).
  - intros H. injection H as _ <-. rewrite andb_true_r. reflexivity.
  - destruct (read_uint8 _) as [[mid|e] c]; [|discriminate].
    intros H. apply dispatch_first in H. rewrite H, andb_false_r. reflexivity.
Qed.

(** C3, as the code has it: a bitfield message met with [first] false is
    a violation: the loop returns and the disconnect signal fires,
    nothing delivered.  And [first], as left by the pass before, is true
    only if it was true before that pass and the pass read a keep-alive:
    a bitfield is accepted only before any message other than a
    keep-alive. *)
Theorem bitfield_only_before_first_message (p : Peer) (first : bool) (L : Z)
    (rest : list byte) (fuel : nat) :
  closed (conn p) = false ->
  disconnected p = Open ->
  0 < L < 2 ^ 32 ->
  rd (conn p) = put_uint32 L ++ messageid.Bitfield :: rest ->
  (first = false ->
     loop_body p first
     = Exit (unread p rest) (Violation "bitfield can only be sent after handshake") /\
     deferred_close (read_loop (S fuel) p first)
     = Returned (set_disconnected (unread p rest) Closed)
         (Violation "bitfield can only be sent after handshake") /\
     messages (unread p rest) = messages p) /\
  (forall q qfirst,
     loop_body q qfirst = Continue p first ->
     first = qfirst && (declared_length q =? 0)).
Proof.
  intros Hc Hd HL Hrd. split; [|intros q qfirst; apply loop_body_first].
  intros ->.
  assert (E : loop_body p false
              = Exit (unread p rest)
                  (Violation "bitfield can only be sent after handshake")).
  { rewrite (loop_body_header p false L messageid.Bitfield rest Hc HL Hrd).
    switch_on_id. reflexivity. }
  split; [exact E|]. split; [|reflexivity].
  cbn [read_loop]. rewrite E. cbn [deferred_close].
  change (disconnected (unread p rest)) with (disconnected p).
  rewrite Hd. reflexivity.
Qed.

Lemma bitfield_only_before_first_message_witness :
  let p0 := fresh (frame messageid.Unchoke [] ++ frame messageid.Bitfield [xa0]) in
  let p1 := set_peerChoking (unread p0 (frame messageid.Bitfield [xa0])) false in
  loop_body p0 true = Continue p1 false /\
  loop_body p1 false
  = Exit (unread p1 [xa0]) (Violation "bitfield can only be sent after handshake").
Proof.
  split.
  - reflexivity.
  - refine (proj1 (proj1 (bitfield_only_before_first_message
                            (set_peerChoking
                               (unread (fresh (frame messageid.Unchoke []
                                                 ++ frame messageid.Bitfield [xa0]))
                                  (frame messageid.Bitfield [xa0])) false)
                            false 2 [xa0] 0 _ _ _ _) eq_refl));
      try reflexivity; lia.
Defined.

(** C3 as stated fails: a bitfield that follows a keep-alive is accepted,
    it becomes the peer's bitfield and its set bits are forwarded. *)
Lemma bitfield_after_keep_alive_counterexample :
  let p0 := fresh (keep_alive ++ frame messageid.Bitfield [xa0]) in
  let r := Run p0 (Some (bitfield.New 8)) in
  loop_body p0 true = Continue (unread p0 (frame messageid.Bitfield [xa0])) true /\
  r = Returned (final r) RemoteClosed /\
  bitfield (final r) = Some (bitfield.NewBytes [xa0] 8) /\
  delivered (messages (final r)) = haves p0 [0; 2] /\
  ~ (exists p' what, r = Returned p' (Violation what)).
Proof.
  vm_compute. repeat split; try reflexivity.
  intros (p' & what & H). discriminate H.
Qed.

Lemma In_indices (k : nat) :
  forall s i, In i (bitfield.indices k s) <-> s <= i < s + Z.of_nat k.
Proof.
  induction k as [|k IH]; intros s i; simpl.
  - lia.
  - rewrite IH. lia.
Qed.

Lemma Test_in_range (bf : bitfield.Bitfield) (i : Z) :
  0 <= i < bitfield.length bf -> exists v, bitfield.Test bf i = Some v.
Proof.
  intros H. unfold bitfield.Test, bitfield.in_range.
  replace (0 <=? i) with true by (symmetry; apply Z.leb_le; lia).
  replace (i <? bitfield.length bf) with true by (symmetry; apply Z.ltb_lt; lia).
  simpl. eauto.
Qed.

(** The set bits are exactly the indices that test true. *)
Lemma In_set_bits (bf : bitfield.Bitfield) (i : Z) :
  In i (set_bits bf) <-> bitfield.Test bf i = Some true.
Proof.
  unfold set_bits. rewrite filter_In, In_indices. unfold bitfield.is_set.
  split.
  - intros [_ H]. destruct (bitfield.Test bf i) as [[|]|]; congruence.
  - intros H. rewrite H. split; [|reflexivity].
    unfold bitfield.Test, bitfield.in_range in H.
    destruct (0 <=? i) eqn:E1; [|discriminate].
    destruct (i <? bitfield.length bf) eqn:E2; [|discriminate].
    apply Z.leb_le in E1. apply Z.ltb_lt in E2. lia.
Qed.

Lemma select_send_sent (p p' : Peer) (m : payload) :
  select_send p m = (p', true) ->
  delivered (messages p') = delivered (messages p) ++ [mkMessage (id p) m] /\
  (forall x, In x (schedule (messages p')) -> In x (schedule (messages p))) /\
  id p' = id p /\ bitfield p' = bitfield p /\ conn p' = conn p.
Proof.
  unfold select_send.
  destruct (schedule (messages p)) as [|[|] sch] eqn:E; intros H;
    try discriminate; injection H as <-; cbn; repeat split; auto.
Qed.

Lemma select_send_stopped (p p' : Peer) (m : payload) :
  select_send p m = (p', false) ->
  In StopReady (schedule (messages p)) /\
  delivered (messages p') = delivered (messages p) /\
  id p' = id p /\ bitfield p' = bitfield p /\ conn p' = conn p.
Proof.
  unfold select_send.
  destruct (schedule (messages p)) as [|[|] sch] eqn:E; intros H;
    try discriminate; injection H as <-; cbn; repeat split; auto.
Qed.

(** The loop over the bits forwards a have for each set bit in turn, and
    stops short only when a [select] takes the stop case. *)
Lemma send_haves_spec (k : nat) :
  forall i bf p,
    0 <= i -> i + Z.of_nat k <= bitfield.length bf ->
    exists p' j,
      let l := filter (bitfield.is_set bf) (bitfield.indices k i) in
      id p' = id p /\ bitfield p' = bitfield p /\ conn p' = conn p /\
      delivered (messages p') = delivered (messages p) ++ haves p (firstn j l) /\
      ((send_haves k i bf p = Continue p' false /\ firstn j l = l) \/
       (send_haves k i bf p = Exit p' Stopped /\
        In StopReady (schedule (messages p)))).
Proof.
  induction k as [|k IH]; intros i bf p Hi Hk.
  - exists p, 0%nat. simpl. rewrite app_nil_r. repeat split; auto.
  - destruct (Test_in_range bf i ltac:(lia)) as [v Hv].
    assert (His : bitfield.is_set bf i = v)
      by (unfold bitfield.is_set; rewrite Hv; destruct v; reflexivity).
    cbn [send_haves bitfield.indices filter]. rewrite His, Hv. destruct v.
    + destruct (select_send p (Have i)) as [q sent] eqn:Es. destruct sent.
      * apply select_send_sent in Es.
        destruct Es as (Hdel & Hsch & Hid & Hbf & Hconn).
        destruct (IH (i + 1) bf q ltac:(lia) ltac:(lia))
          as (p' & j & Hid' & Hbf' & Hconn' & Hdel' & Hres).
        exists p', (S j). cbn zeta in *. cbn [firstn].
        repeat split; try congruence.
        -- rewrite Hdel', Hdel. unfold haves. rewrite Hid.
           cbn [map]. rewrite <- app_assoc. reflexivity.
        -- destruct Hres as [[Hr Hall]|[Hr Hstop]].
           ++ left. split; [exact Hr | rewrite Hall; reflexivity].
           ++ right. split; [exact Hr | apply Hsch; exact Hstop].
      * apply select_send_stopped in Es.
        destruct Es as (Hstop & Hdel & Hid & Hbf & Hconn).
        exists q, 0%nat. cbn zeta. cbn [firstn haves map].
        rewrite app_nil_r. repeat split; auto.
    + destruct (IH (i + 1) bf p ltac:(lia) ltac:(lia))
        as (p' & j & Hid' & Hbf' & Hconn' & Hdel' & Hres).
      exists p', j. cbn zeta in *. repeat split; auto.
Qed.

(** The pass over a bitfield message met with [first] true: a payload
    length other than [NumBytes numPieces] is a violation; with the right
    length and the payload there, the decoded bitfield becomes the peer's,
    and a have is forwarded for each set bit in increasing order and for
    no other index, all of them unless a [select] finds the peer
    stopped. *)
Lemma first_bitfield_pass (p : Peer) (L : Z) (rest : list byte) :
  closed (conn p) = false ->
  0 <= numPieces p < 2 ^ 32 ->
  0 < L < 2 ^ 32 ->
  rd (conn p) = put_uint32 L ++ messageid.Bitfield :: rest ->
  (L - 1 <> bitfield.NumBytes (numPieces p) ->
     loop_body p true = Exit (unread p rest) (Violation "invalid bitfield length")) /\
  (L - 1 = bitfield.NumBytes (numPieces p) ->
     forall bs rest',
       rest = bs ++ rest' -> Z.of_nat (List.length bs) = L - 1 ->
       let bf := bitfield.NewBytes bs (numPieces p) in
       (forall i, In i (set_bits bf) <-> bitfield.Test bf i = Some true) /\
       exists p' j,
         bitfield p' = Some bf /\
         rd (conn p') = rest' /\
         delivered (messages p')
         = delivered (messages p) ++ haves p (firstn j (set_bits bf)) /\
         ((loop_body p true = Continue p' false /\
           firstn j (set_bits bf) = set_bits bf) \/
          (loop_body p true = Exit p' Stopped /\
           In StopReady (schedule (messages p))))).
Proof.
  intros Hc Hn HL Hrd.
  rewrite (loop_body_header p true L messageid.Bitfield rest Hc HL Hrd).
  switch_on_id. cbn [negb].
  change (numPieces (unread p rest)) with (numPieces p).
  rewrite (NumBytes_uint32 (numPieces p) Hn).
  split.
  - intros Hne.
    replace (L - 1 =? bitfield.NumBytes (numPieces p)) with false
      by (symmetry; apply Z.eqb_neq; exact Hne).
    reflexivity.
  - intros He bs rest' Hrest Hlen.
    set (bf := bitfield.NewBytes bs (numPieces p)).
    split; [intros i; apply In_set_bits|].
    replace (L - 1 =? bitfield.NumBytes (numPieces p)) with true
      by (symmetry; apply Z.eqb_eq; exact He).
    cbn [negb].
    assert (Hl : List.length bs = Z.to_nat (bitfield.NumBytes (numPieces p)))
      by lia.
    subst rest.
    rewrite (ReadFull_app _ bs rest' (conn (unread p (bs ++ rest'))) Hl eq_refl).
    cbv beta iota zeta.
    set (p2 := set_bitfield _ _).
    assert (Elen : bitfield.Len (bitfield.NewBytes bs (numPieces p)) = numPieces p)
      by reflexivity.
    change (numPieces (set_conn (unread p (bs ++ rest'))
                         (set_rd (conn (unread p (bs ++ rest'))) rest')))
      with (numPieces p) in *.
    fold bf in p2 |- *.
    destruct (send_haves_spec (Z.to_nat (bitfield.Len bf)) 0 bf p2 ltac:(lia))
      as (p' & j & Hid & Hbf & Hconn & Hdel & Hres).
    { subst bf. rewrite Elen. cbn [bitfield.NewBytes bitfield.length]. lia. }
    cbn zeta in Hdel, Hres.
    exists p', j. unfold set_bits.
    change (bitfield.length bf) with (bitfield.Len bf).
    repeat split.
    + rewrite Hbf. reflexivity.
    + rewrite Hconn. reflexivity.
    + rewrite Hdel. reflexivity.
    + exact Hres.
Qed.

(** ** request and piece *)

Lemma CopyN_Discard_app (n : nat) (bs rest : list byte) (c : Conn) :
  List.length bs = n -> rd c = bs ++ rest ->
  CopyN_Discard n c = (None, set_rd c rest).
Proof.
  intros Hn Hrd. unfold CopyN_Discard. rewrite Hrd.
  replace (n <=? List.length (bs ++ rest))%nat with true
    by (symmetry; apply Nat.leb_le; rewrite List.length_app; lia).
  rewrite List.skipn_app.
  replace (n - List.length bs)%nat with 0%nat by lia.
  rewrite List.skipn_all2 by lia. reflexivity.
Qed.

(** The switch has no arm for request: whatever its index, begin and
    length, the message is discarded as an unhandled one and the loop goes
    on; [maxAllowedBlockSize] is never consulted. *)
Lemma request_is_discarded (p : Peer) (first : bool) (index begin len : Z)
    (rest : list byte) :
  closed (conn p) = false ->
  rd (conn p) = put_uint32 13 ++ messageid.Request
                  :: (put_uint32 index ++ put_uint32 begin ++ put_uint32 len) ++ rest ->
  loop_body p first = Continue (unread p rest) false.
Proof.
  intros Hc Hrd.
  rewrite (loop_body_header p first 13 messageid.Request _ Hc ltac:(lia) Hrd).
  switch_on_id.
  rewrite (CopyN_Discard_app (Z.to_nat (13 - 1))
             (put_uint32 index ++ put_uint32 begin ++ put_uint32 len) rest)
    by reflexivity.
  reflexivity.
Qed.

(** C1 fails on the code: a request for 65536 bytes, twice the allowed
    block size, is not rejected.  The loop discards it, goes on to the
    choke that follows and forwards that; it ends only when the remote
    closes the connection. *)
Theorem oversized_request_not_rejected :
  let p0 := fresh (frame messageid.Request
                     (put_uint32 0 ++ put_uint32 0 ++ put_uint32 65536)
                   ++ frame messageid.Choke []) in
  let r := Run p0 (Some (bitfield.New 8)) in
  maxAllowedBlockSize < 65536 /\
  loop_body p0 true = Continue (unread p0 (frame messageid.Choke [])) false /\
  r = Returned (final r) RemoteClosed /\
  delivered (messages (final r)) = [mkMessage remote_id Choke].
Proof.
  vm_compute. repeat split; reflexivity.
Qed.

(** The piece arm reads the index and the begin and nothing more: a pass
    over a piece message takes 13 bytes off the connection whatever the
    declared length, and the block stays unread. *)
Lemma piece_block_left_unread (p : Peer) (first : bool) (L index begin : Z)
    (rest : list byte) :
  closed (conn p) = false ->
  0 < L < 2 ^ 32 ->
  rd (conn p) = put_uint32 L ++ messageid.Piece
                  :: (put_uint32 index ++ put_uint32 begin) ++ rest ->
  loop_body p first = Continue (unread p rest) false.
Proof.
  intros Hc HL Hrd.
  rewrite (loop_body_header p first L messageid.Piece _ Hc HL Hrd).
  switch_on_id.
  rewrite (ReadFull_app 8 (put_uint32 index ++ put_uint32 begin) rest
             (conn (unread p ((put_uint32 index ++ put_uint32 begin) ++ rest)))
             eq_refl eq_refl).
  reflexivity.
Qed.

(** A message of an id the switch does not know is discarded whole: the
    pass takes the four bytes of the prefix and the [L] declared ones. *)
Lemma unknown_id_consumes_declared (p : Peer) (first : bool) (L : Z)
    (mid : messageid.MessageID) (body rest : list byte) :
  closed (conn p) = false ->
  0 < L < 2 ^ 32 ->
  Z.of_nat (List.length body) = L - 1 ->
  In mid [messageid.Request; messageid.Cancel; messageid.Port] ->
  rd (conn p) = put_uint32 L ++ mid :: body ++ rest ->
  loop_body p first = Continue (unread p rest) false /\
  Z.of_nat (List.length (rd (conn p)))
  = 4 + L + Z.of_nat (List.length (rd (conn (unread p rest)))).
Proof.
  intros Hc HL Hlen Hmid Hrd. split.
  - rewrite (loop_body_header p first L mid _ Hc HL Hrd).
    assert (Hd : forall q, dispatch q first mid (L - 1)
                   = match CopyN_Discard (Z.to_nat (L - 1)) (conn q) with
                     | (Some err, c) => Exit (set_conn q c) (IOError err)
                     | (None, c) => Continue (set_conn q c) false
                     end).
    { intros q. simpl in Hmid.
      destruct Hmid as [<-|[<-|[<-|[]]]]; switch_on_id; reflexivity. }
    rewrite Hd.
    rewrite (CopyN_Discard_app (Z.to_nat (L - 1)) body rest
               (conn (unread p (body ++ rest))) ltac:(lia) eq_refl).
    reflexivity.
  - rewrite Hrd. cbn [unread set_conn conn set_rd rd].
    rewrite List.length_app. cbn [List.length put_uint32].
    rewrite List.length_app. lia.
Qed.

(** C2 fails on the code: after a piece message of declared length 13 the
    pass has taken 13 bytes, not 4 + 13, and the four block bytes are read
    as the next length prefix.  Here they make the loop take the first
    byte of the unchoke that follows for a choke: a choke that the remote
    never sent is forwarded, and [peerChoking] ends up true. *)
Theorem piece_desynchronizes_stream :
  let block := [x00; x00; x00; x01] in
  let p0 := fresh (frame messageid.Piece (put_uint32 0 ++ put_uint32 0 ++ block)
                   ++ frame messageid.Unchoke []) in
  let r := Run p0 (Some (bitfield.New 8)) in
  declared_length p0 = 13 /\
  loop_body p0 true
  = Continue (unread p0 (block ++ frame messageid.Unchoke [])) false /\
  Z.of_nat (List.length (rd (conn p0)))
  - Z.of_nat (List.length (block ++ frame messageid.Unchoke [])) = 13 /\
  delivered (messages (final r)) = [mkMessage remote_id Choke] /\
  peerChoking (final r) = true /\
  r = Returned (final r) (IOError EOF).
Proof.
  vm_compute. repeat split; reflexivity.
Qed.

(** C4 fails on the code: [New] leaves the peer's bitfield nil and the
    have arm does not allocate one, so a have in range that comes before
    any bitfield panics in [Set]: no bit is set, nothing is forwarded, and
    [Run] does not return normally. *)
Theorem have_before_bitfield_panics :
  let p0 := fresh (frame messageid.Have (put_uint32 0)) in
  let r := Run p0 (Some (bitfield.New 8)) in
  bitfield p0 = None /\
  loop_body p0 true
  = Panics (unread p0 []) "invalid memory address or nil pointer dereference" /\
  r = Panicked (final r) "invalid memory address or nil pointer dereference" /\
  bitfield (final r) = None /\
  delivered (messages (final r)) = [].
Proof.
  vm_compute. repeat split; reflexivity.
Qed.

(** * Further properties of the peer link *)

(** ** writeMessage and the header the loop reads *)

(** What [writeMessage] hands to [conn.Write] in one call is read back by
    the loop of the receiving side as the same id and the same payload
    length: the pass reaches the switch with the payload as the next
    unread bytes. *)
Theorem writeMessage_read_back (a b : Peer) (mid : messageid.MessageID)
    (payload rest : list byte) (first : bool) :
  closed (conn a) = false ->
  closed (conn b) = false ->
  1 + Z.of_nat (List.length payload) < 2 ^ 32 ->
  exists buf,
    wr (conn (fst (writeMessage a mid payload))) = wr (conn a) ++ [buf] /\
    List.length buf = (5 + List.length payload)%nat /\
    loop_body (unread b (buf ++ rest)) first
    = dispatch (unread b (payload ++ rest)) first mid
        (Z.of_nat (List.length payload)).
Proof.
  intros Ha Hb Hlen.
  exists (frame mid payload). split; [|split].
  - unfold writeMessage, Conn_Write. rewrite Ha. reflexivity.
  - unfold frame. rewrite List.length_app. reflexivity.
  - unfold frame. rewrite uint32_small by lia.
    rewrite (loop_body_header (unread b _) first
               (1 + Z.of_nat (List.length payload)) mid (payload ++ rest)).
    + replace (1 + Z.of_nat (List.length payload) - 1)
        with (Z.of_nat (List.length payload)) by lia.
      reflexivity.
    + exact Hb.
    + lia.
    + cbn [unread set_conn conn set_rd rd].
      rewrite <- app_assoc. reflexivity.
Qed.

Lemma writeMessage_read_back_witness :
  exists buf,
    wr (conn (fst (writeMessage (fresh []) messageid.Have (put_uint32 3))))
    = wr (conn (fresh [])) ++ [buf] /\
    List.length buf = 9%nat /\
    loop_body (unread (fresh []) (buf ++ [])) true
    = dispatch (unread (fresh []) (put_uint32 3 ++ [])) true messageid.Have 4.
Proof.
  apply (writeMessage_read_back (fresh []) (fresh []) messageid.Have
           (put_uint32 3) [] true); try reflexivity.
Defined.

(** ** divMod32 *)

(** For uint32 operands and a non-zero divisor [divMod32] returns the
    quotient and the remainder, both uint32, with [a = q * b + r] and
    [r < b]; a zero divisor panics. *)
Theorem divMod32_spec (a b : Z) :
  0 <= a < 2 ^ 32 -> 0 <= b < 2 ^ 32 ->
  (b = 0 -> divMod32 a b = None) /\
  (b <> 0 ->
     exists q r, divMod32 a b = Some (q, r) /\
       a = q * b + r /\ 0 <= r < b /\ 0 <= q <= a).
Proof.
  intros Ha Hb. unfold divMod32. split.
  - intros ->. reflexivity.
  - intros Hnz.
    replace (b =? 0) with false by (symmetry; apply Z.eqb_neq; exact Hnz).
    exists (a / b), (a mod b). split; [reflexivity|].
    pose proof (Z.div_mod a b Hnz).
    pose proof (Z.mod_pos_bound a b ltac:(lia)).
    assert (0 <= a / b) by (apply Z.div_pos; lia).
    assert (a / b <= a) by (apply Z.div_le_upper_bound; nia).
    repeat split; lia.
Qed.

Lemma divMod32_spec_witness :
  exists q r, divMod32 49152 16384 = Some (q, r) /\
    49152 = q * 16384 + r /\ 0 <= r < 16384 /\ 0 <= q <= 49152.
Proof.
  apply (divMod32_spec 49152 16384); lia.
Defined.

(** ** The flag-flipping sends and what the remote reads *)

(** A send leaves the local flags as requested, and writes its message
    exactly when that changes a flag. *)
Lemma do_send_effect (a : Peer) (o : send_op) :
  closed (conn a) = false ->
  let st := (amChoking a, amInterested a) in
  let a' := fst (do_send a o) in
  closed (conn a') = false /\
  wr_err (conn a') = wr_err (conn a) /\
  (amChoking a', amInterested a') = op_flags o st /\
  wr (conn a') = wr (conn a)
                 ++ (if same_flags (op_flags o st) st then []
                     else [frame (op_id o) []]).
Proof.
  intros Hc. destruct o; cbn [do_send op_flags op_id fst snd same_flags];
    unfold SendChoke, SendUnchoke, SendInterested, SendNotInterested,
      writeMessage, Conn_Write;
    destruct (amChoking a) eqn:E1; destruct (amInterested a) eqn:E2;
    cbn [negb conn set_amChoking set_amInterested set_conn fst snd
           amChoking amInterested closed wr wr_err Bool.eqb andb];
    rewrite ?Hc, ?E1, ?E2, ?app_nil_r;
    cbn [negb conn set_amChoking set_amInterested set_conn fst snd
           amChoking amInterested closed wr wr_err Bool.eqb andb];
    rewrite ?Hc, ?E1, ?E2, ?app_nil_r; repeat split; auto.
Qed.

Lemma select_send_receiving (p : Peer) (m : payload) :
  ~ In StopReady (schedule (messages p)) ->
  select_send p m
  = (set_messages p
       (mkMsgChan (delivered (messages p) ++ [mkMessage (id p) m])
          (tl (schedule (messages p)))),
     true).
Proof.
  intros Hs. unfold select_send.
  destruct (schedule (messages p)) as [|[|] sch] eqn:E; try reflexivity.
  exfalso. apply Hs. left. reflexivity.
Qed.

Lemma In_tl (A : Type) (x : A) (l : list A) : In x (tl l) -> In x l.
Proof. destruct l; simpl; auto. Qed.

(** The pass of the receiving loop over the message of a send: the
    remote's flags [(peerChoking, peerInterested)] follow the send. *)
Lemma receive_flag_frame (b : Peer) (first : bool) (o : send_op) :
  closed (conn b) = false ->
  ~ In StopReady (schedule (messages b)) ->
  exists b1,
    closed (conn b1) = false /\
    ~ In StopReady (schedule (messages b1)) /\
    (peerChoking b1, peerInterested b1)
    = op_flags o (peerChoking b, peerInterested b) /\
    forall rest,
      loop_body (unread b (frame (op_id o) [] ++ rest)) first
      = Continue (unread b1 rest) false.
Proof.
  intros Hc Hs.
  assert (Hh : forall rest,
             loop_body (unread b (frame (op_id o) [] ++ rest)) first
             = dispatch (unread b rest) first (op_id o) 0).
  { intros rest.
    rewrite (loop_body_header (unread b (frame (op_id o) [] ++ rest)) first 1
               (op_id o) rest Hc ltac:(lia) eq_refl).
    reflexivity. }
  destruct o; cbn [op_id op_flags fst snd] in *.
  - exists (set_messages (set_peerChoking b true)
              (mkMsgChan (delivered (messages b) ++ [mkMessage (id b) Choke])
                 (tl (schedule (messages b))))).
    split; [exact Hc|]. split; [|split; [reflexivity|]].
    + cbn. intros H. apply Hs. apply In_tl. exact H.
    + intros rest. rewrite Hh. switch_on_id.
      rewrite (select_send_receiving (set_peerChoking (unread b rest) true)
                 Choke Hs).
      reflexivity.
  - exists (set_peerChoking b false).
    split; [exact Hc|]. split; [exact Hs|]. split; [reflexivity|].
    intros rest. rewrite Hh. switch_on_id. reflexivity.
  - exists (set_peerInterested b true).
    split; [exact Hc|]. split; [exact Hs|]. split; [reflexivity|].
    intros rest. rewrite Hh. switch_on_id. reflexivity.
  - exists (set_peerInterested b false).
    split; [exact Hc|]. split; [exact Hs|]. split; [reflexivity|].
    intros rest. rewrite Hh. switch_on_id. reflexivity.
Qed.

Lemma same_flags_true (x y : bool * bool) : same_flags x y = true -> x = y.
Proof.
  destruct x as [[] []], y as [[] []]; simpl; intros H;
    try discriminate; reflexivity.
Qed.

(** With nothing left to read the loop returns at once, the peer as it
    was. *)
Lemma read_loop_drained (b : Peer) (first : bool) (fuel : nat) :
  closed (conn b) = false ->
  final (read_loop (S fuel) (unread b []) first) = unread b [].
Proof.
  intros Hc. cbn [read_loop]. unfold loop_body, SetReadDeadline.
  cbn [unread set_conn conn set_rd closed]. rewrite Hc.
  reflexivity.
Qed.

(** Whatever sequence of chokes, unchokes, interesteds and not-interesteds
    is sent over a working connection, each send writes at most one
    message, and the receiving loop that reads what was written ends with
    [peerChoking] and [peerInterested] equal to the sender's [amChoking]
    and [amInterested]: the skipped redundant sends lose nothing. *)
Theorem sends_keep_remote_in_step (ops : list send_op) :
  forall (a b : Peer) (first : bool),
    closed (conn a) = false ->
    closed (conn b) = false ->
    ~ In StopReady (schedule (messages b)) ->
    (peerChoking b, peerInterested b) = (amChoking a, amInterested a) ->
    exists new,
      wr (conn (do_sends a ops)) = wr (conn a) ++ new /\
      (List.length new <= List.length ops)%nat /\
      let b' := final (read_loop (S (List.length (List.concat new)))
                         (unread b (List.concat new)) first) in
      (peerChoking b', peerInterested b')
      = (amChoking (do_sends a ops), amInterested (do_sends a ops)) /\
      rd (conn b') = [].
Proof.
  induction ops as [|o r IH]; intros a b first Ha Hb Hs Hf.
  - exists []. cbn [do_sends List.concat List.length]. rewrite app_nil_r.
    split; [reflexivity|]. split; [lia|]. cbn zeta.
    rewrite read_loop_drained by exact Hb. split; [exact Hf | reflexivity].
  - destruct (do_send_effect a o Ha) as (Hc' & _ & Hfl & Hwr).
    cbn zeta in Hc', Hfl, Hwr. cbn [do_sends].
    destruct (same_flags (op_flags o (amChoking a, amInterested a))
                (amChoking a, amInterested a)) eqn:Esame.
    + apply same_flags_true in Esame. rewrite app_nil_r in Hwr.
      destruct (IH (fst (do_send a o)) b first Hc' Hb Hs)
        as (new & Hnew & Hlen & Hres).
      { rewrite Hfl, Esame. exact Hf. }
      exists new. rewrite Hnew, Hwr. split; [reflexivity|].
      split; [simpl; lia | exact Hres].
    + destruct (receive_flag_frame b first o Hb Hs)
        as (b1 & Hb1 & Hs1 & Hf1 & Hpass).
      destruct (IH (fst (do_send a o)) b1 false Hc' Hb1 Hs1)
        as (new & Hnew & Hlen & Hres).
      { rewrite Hf1, Hfl, Hf. reflexivity. }
      exists (frame (op_id o) [] :: new).
      rewrite Hnew, Hwr, <- app_assoc. split; [reflexivity|].
      split; [simpl; lia|]. cbn zeta in *.
      cbn [List.concat]. cbn [read_loop]. rewrite Hpass.
      replace (List.length (frame (op_id o) [] ++ List.concat new))
        with (S (List.length (List.concat new)) + 4)%nat
        by (rewrite List.length_app; destruct o; simpl; lia).
      rewrite read_loop_fuel by (simpl; lia).
      exact Hres.
Qed.

Lemma sends_keep_remote_in_step_witness :
  exists new,
    wr (conn (do_sends (fresh []) [DoUnchoke; DoUnchoke; DoInterested; DoChoke]))
    = wr (conn (fresh [])) ++ new /\
    (List.length new <= 4)%nat /\
    let b' := final (read_loop (S (List.length (List.concat new)))
                       (unread (fresh []) (List.concat new)) true) in
    (peerChoking b', peerInterested b')
    = (amChoking (do_sends (fresh []) [DoUnchoke; DoUnchoke; DoInterested; DoChoke]),
       amInterested (do_sends (fresh []) [DoUnchoke; DoUnchoke; DoInterested; DoChoke])) /\
    rd (conn b') = [].
Proof.
  apply (sends_keep_remote_in_step [DoUnchoke; DoUnchoke; DoInterested; DoChoke]
           (fresh []) (fresh []) true); try reflexivity.
  simpl. tauto.
Defined.

(** A send sets its flag before it writes.  When the write fails the flag
    stays flipped, so the same send tried again finds nothing to do: it
    returns nil without touching the connection, and the message is never
    written. *)
Theorem failed_send_is_not_retried (p : Peer) (o : send_op) (e : error) :
  snd (do_send p o) = Some e ->
  let p' := fst (do_send p o) in
  (amChoking p', amInterested p') = op_flags o (amChoking p, amInterested p) /\
  do_send p' o = (p', None).
Proof.
  destruct o; cbn [do_send op_flags fst snd];
    unfold SendChoke, SendUnchoke, SendInterested, SendNotInterested;
    destruct (amChoking p) eqn:E1; destruct (amInterested p) eqn:E2;
    cbn [negb]; try discriminate;
    unfold writeMessage, Conn_Write;
    cbn [conn set_amChoking set_amInterested];
    destruct (closed (conn p)); cbn [fst snd]; intros _;
    cbn [amChoking amInterested set_conn set_amChoking set_amInterested negb];
    rewrite ?E1, ?E2; split; reflexivity.
Qed.

Lemma failed_send_is_not_retried_witness :
  let gone := New (mkConn [] EOF [] None true) remote_id 8 receiving in
  snd (SendUnchoke gone) = Some ErrClosed /\
  SendUnchoke (fst (SendUnchoke gone)) = (fst (SendUnchoke gone), None).
Proof.
  split.
  - reflexivity.
  - exact (proj2 (failed_send_is_not_retried
                    (New (mkConn [] EOF [] None true) remote_id 8 receiving)
                    DoUnchoke ErrClosed eq_refl)).
Defined.

(** ** What Run leaves alone, and how far a pass reads *)

(** The local side of the peer: what [Run] must not change. *)
Lemma sendBitfield_local (p : Peer) (b : option bitfield.Bitfield) :
  let q := match sendBitfield p b with Ret q _ | Panic q _ => q end in
  id q = id p /\ numPieces q = numPieces p /\
  amChoking q = amChoking p /\ amInterested q = amInterested p /\
  stopC q = stopC p /\ closed (conn q) = closed (conn p) /\
  rd (conn q) = rd (conn p) /\ messages q = messages p /\
  peerChoking q = peerChoking p /\ peerInterested q = peerInterested p /\
  bitfield q = bitfield p.
Proof.
  unfold sendBitfield, writeMessage, Conn_Write.
  destruct b as [bf|]; cbn zeta; [|repeat split; reflexivity].
  destruct (bitfield.Count bf =? 0); [repeat split; reflexivity|].
  destruct (closed (conn p)) eqn:E; cbn; rewrite ?E; repeat split; reflexivity.
Qed.

(** [Run] only reads: whatever arrives, it never closes the connection,
    never touches [stopC], leaves [amChoking] and [amInterested], the id
    and the piece count as they were, and the unread bytes only shrink. *)
Theorem Run_leaves_local_state (p : Peer) (b : option bitfield.Bitfield) :
  let p' := final (Run p b) in
  closed (conn p') = closed (conn p) /\
  stopC p' = stopC p /\
  amChoking p' = amChoking p /\ amInterested p' = amInterested p /\
  ID p' = ID p /\ numPieces p' = numPieces p /\
  (List.length (rd (conn p')) <= List.length (rd (conn p)))%nat.
Proof.
  cbn zeta. unfold ID.
  assert (Hbody : let q := final (Run_body p b) in
            closed (conn q) = closed (conn p) /\
            stopC q = stopC p /\
            amChoking q = amChoking p /\ amInterested q = amInterested p /\
            id q = id p /\ numPieces q = numPieces p /\
            (List.length (rd (conn q)) <= List.length (rd (conn p)))%nat).
  { cbn zeta. unfold Run_body.
    pose proof (sendBitfield_local p b) as Hs. cbn zeta in Hs.
    destruct (sendBitfield p b) as [q [e|]|q msg]; cbn [final];
      destruct Hs as (H1 & H2 & H3 & H4 & H5 & H6 & H7 & _).
    - rewrite H1, H2, H3, H4, H5, H6, H7. repeat split; auto.
    - pose proof (read_loop_reads_only (S (List.length (rd (conn q)))) q true) as Hr.
      unfold reads_only in Hr. decompose [and] Hr.
      repeat split; congruence.
    - rewrite H1, H2, H3, H4, H5, H6, H7. repeat split; auto. }
  cbn zeta in Hbody. unfold Run.
  destruct (Run_body p b) as [q why|q msg|q]; cbn [deferred_close final] in *;
    try destruct (close (disconnected q)); exact Hbody.
Qed.

(** A pass that does not end the loop has read at least a whole length
    prefix, and has changed nothing but the unread bytes, the remote's
    flags and bitfield and the [messages] channel. *)
Theorem pass_reads_a_prefix (p p' : Peer) (first first' : bool) :
  loop_body p first = Continue p' first' ->
  (List.length (rd (conn p')) + 4 <= List.length (rd (conn p)))%nat /\
  wr (conn p') = wr (conn p) /\
  amChoking p' = amChoking p /\ amInterested p' = amInterested p /\
  stopC p' = stopC p /\ disconnected p' = disconnected p.
Proof.
  intros H. split; [exact (loop_body_progress p p' first first' H)|].
  pose proof (loop_body_reads_only p first) as Hr. rewrite H in Hr.
  unfold reads_only in Hr. cbn [step_peer] in Hr. decompose [and] Hr.
  repeat split; assumption.
Qed.

Lemma pass_reads_a_prefix_witness :
  (List.length (rd (conn (unread (fresh keep_alive) []))) + 4
   <= List.length (rd (conn (fresh keep_alive))))%nat.
Proof.
  apply (pass_reads_a_prefix (fresh keep_alive) (unread (fresh keep_alive) [])
           true true).
  reflexivity.
Defined.

(** ** Keep-alives, truncated messages, a closed peer *)

Lemma read_loop_keep_alives (n : nat) :
  forall (p : Peer) (first : bool) (fuel : nat),
    closed (conn p) = false ->
    (4 * n < fuel)%nat ->
    read_loop fuel (unread p (List.concat (repeat keep_alive n))) first
    = read_loop (fuel - n) (unread p []) first.
Proof.
  induction n as [|n IH]; intros p first fuel Hc Hf.
  - cbn [repeat List.concat]. replace (fuel - 0)%nat with fuel by lia.
    reflexivity.
  - destruct fuel as [|fuel]; [lia|].
    cbn [repeat List.concat read_loop].
    rewrite (loop_body_keep_alive
               (unread p (keep_alive ++ List.concat (repeat keep_alive n)))
               first (List.concat (repeat keep_alive n)) Hc eq_refl).
    change (unread (unread p (keep_alive ++ List.concat (repeat keep_alive n)))
              (List.concat (repeat keep_alive n)))
      with (unread p (List.concat (repeat keep_alive n))).
    rewrite IH by (auto; lia).
    replace (S fuel - S n)%nat with (fuel - n)%nat by lia. reflexivity.
Qed.

Lemma loop_body_clean_close (p : Peer) (first : bool) :
  closed (conn p) = false ->
  rd_end (conn p) = EOF ->
  rd (conn p) = [] ->
  loop_body p first = Exit (unread p []) RemoteClosed.
Proof.
  intros Hc He Hrd. unfold loop_body, SetReadDeadline. rewrite Hc.
  unfold read_uint32, ReadFull. rewrite Hrd, He. reflexivity.
Qed.

Lemma length_keep_alives (n : nat) :
  List.length (List.concat (repeat keep_alive n)) = (4 * n)%nat.
Proof.
  induction n as [|n IH]; [reflexivity|].
  cbn [repeat List.concat]. rewrite List.length_app, IH.
  change (List.length keep_alive) with 4%nat. lia.
Qed.

(** Keep-alives are read and dropped: a remote that sends any number of
    them and then closes makes [Run] return on the clean EOF with nothing
    delivered and no flag or bitfield changed; only the disconnect signal
    has fired. *)
Theorem keep_alives_change_nothing (n : nat) (p : Peer)
    (bf : bitfield.Bitfield) :
  closed (conn p) = false ->
  rd_end (conn p) = EOF ->
  disconnected p = Open ->
  bitfield.Count bf = 0 ->
  Run (unread p (List.concat (repeat keep_alive n))) (Some bf)
  = Returned (set_disconnected (unread p []) Closed) RemoteClosed.
Proof.
  intros Hc He Hd Hb. unfold Run, Run_body, sendBitfield. rewrite Hb.
  cbn [Z.eqb].
  cbn [unread set_conn conn set_rd rd]. rewrite length_keep_alives.
  change (set_conn p (set_rd (conn p) (List.concat (repeat keep_alive n))))
    with (unread p (List.concat (repeat keep_alive n))).
  rewrite read_loop_keep_alives by (auto; lia).
  replace (S (4 * n) - n)%nat with (S (3 * n)) by lia.
  cbn [read_loop].
  rewrite (loop_body_clean_close (unread p []) true Hc He eq_refl).
  cbn [deferred_close].
  change (disconnected (unread (unread p []) [])) with (disconnected p).
  rewrite Hd. reflexivity.
Qed.

Lemma keep_alives_change_nothing_witness :
  Run (unread (fresh []) (List.concat (repeat keep_alive 3)))
    (Some (bitfield.New 8))
  = Returned (set_disconnected (unread (fresh []) []) Closed) RemoteClosed.
Proof.
  apply (keep_alives_change_nothing 3 (fresh []) (bitfield.New 8));
    reflexivity.
Defined.

(** Where the remote closes decides what the loop reports: at a message
    boundary the close is clean; inside a length prefix it is an
    unexpected EOF; right after a non-zero prefix, with the id still to
    come, it is an EOF reported as an error.  Each time the pass ends the
    loop with the connection drained and nothing delivered. *)
Theorem close_inside_a_message_is_an_error (p : Peer) (first : bool) :
  closed (conn p) = false ->
  rd_end (conn p) = EOF ->
  (rd (conn p) = [] -> loop_body p first = Exit (unread p []) RemoteClosed) /\
  ((0 < List.length (rd (conn p)) < 4)%nat ->
     loop_body p first = Exit (unread p []) (IOError ErrUnexpectedEOF)) /\
  (forall L, 0 < L < 2 ^ 32 -> rd (conn p) = put_uint32 L ->
     loop_body p first = Exit (unread p []) (IOError EOF)).
Proof.
  intros Hc He. split; [|split].
  - intros Hrd. apply loop_body_clean_close; assumption.
  - unfold loop_body, SetReadDeadline. rewrite Hc.
    intros Hlen. unfold read_uint32, ReadFull.
    replace (4 <=? List.length (rd (conn p)))%nat with false
      by (symmetry; apply Nat.leb_gt; lia).
    destruct (rd (conn p)) as [|x l]; [simpl in Hlen; lia|].
    rewrite He. reflexivity.
  - unfold loop_body, SetReadDeadline. rewrite Hc.
    intros L HL Hrd.
    rewrite (read_uint32_put L [] (conn p) ltac:(lia))
      by (rewrite Hrd, app_nil_r; reflexivity).
    replace (L =? 0) with false by (symmetry; apply Z.eqb_neq; lia).
    unfold read_uint8, ReadFull.
    cbn [set_conn conn set_rd rd List.length Nat.leb rd_end].
    rewrite He. reflexivity.
Qed.

Lemma close_inside_a_message_is_an_error_witness :
  loop_body (fresh [x00; x00]) true
  = Exit (unread (fresh [x00; x00]) []) (IOError ErrUnexpectedEOF).
Proof.
  apply (close_inside_a_message_is_an_error (fresh [x00; x00]) true);
    try reflexivity.
  simpl. lia.
Defined.

(** After [Close] the peer's connection is closed, and a [Run] started on
    it returns at once with the closed-connection error, whatever the
    local bitfield: nothing is read, written or delivered, and the
    disconnect signal fires. *)
Theorem Run_after_Close_returns (p p1 : Peer) (e : option error)
    (bf : bitfield.Bitfield) :
  Close p = Ret p1 e ->
  disconnected p = Open ->
  closed (conn p1) = true /\ stopC p1 = Closed /\
  Run p1 (Some bf) = Returned (set_disconnected p1 Closed) (IOError ErrClosed).
Proof.
  unfold Close. destruct (stopC p) eqn:Es; cbn [close]; [|discriminate].
  unfold Conn_Close. cbn [conn set_stopC].
  intros H Hd.
  assert (Hp1 : closed (conn p1) = true /\ stopC p1 = Closed /\
                disconnected p1 = Open /\ p1 = set_conn p1 (conn p1)).
  { destruct (closed (conn p)) eqn:Ec; injection H as <- _;
      cbn; rewrite ?Ec; auto. }
  destruct Hp1 as (Hc1 & Hs1 & Hd1 & Heta).
  split; [exact Hc1|]. split; [exact Hs1|].
  unfold Run, Run_body, sendBitfield, writeMessage, Conn_Write.
  rewrite Hc1.
  destruct (bitfield.Count bf =? 0).
  - cbn [read_loop]. unfold loop_body, SetReadDeadline. rewrite Hc1.
    cbn [deferred_close]. rewrite Hd1. reflexivity.
  - rewrite <- Heta. cbn [deferred_close]. rewrite Hd1. reflexivity.
Qed.

Lemma Run_after_Close_returns_witness :
  exists p1,
    Close (fresh keep_alive) = Ret p1 None /\
    Run p1 (Some (bitfield.New 8))
    = Returned (set_disconnected p1 Closed) (IOError ErrClosed).
Proof.
  eexists. split.
  - reflexivity.
  - apply (Run_after_Close_returns (fresh keep_alive) _ None (bitfield.New 8));
      reflexivity.
Defined.

(** ** The arms of the switch *)

Lemma dispatch_default (p : Peer) (first : bool) (mid : messageid.MessageID)
    (len : Z) :
  ~ In mid [messageid.Choke; messageid.Unchoke; messageid.Interested;
            messageid.NotInterested; messageid.Have; messageid.Bitfield;
            messageid.Piece] ->
  dispatch p first mid len
  = match CopyN_Discard (Z.to_nat len) (conn p) with
    | (Some err, c) => Exit (set_conn p c) (IOError err)
    | (None, c) => Continue (set_conn p c) false
    end.
Proof.
  intros Hmid. unfold dispatch.
  repeat match goal with
    | |- context [Byte.eqb mid ?c] =>
        destruct (Byte.eqb mid c) eqn:E;
        [exfalso; apply Hmid; apply Byte.byte_dec_bl in E; subst mid;
         simpl; tauto | clear E]
    end.
  reflexivity.
Qed.

(** A message whose id has no arm in the switch (request, cancel, port and
    every id above) is skipped whole: with its declared bytes there, the
    pass takes exactly the prefix and the [L] declared bytes, delivers
    nothing and goes on; cut short, it ends the loop with the error of the
    connection, everything read. *)
Theorem unhandled_id_is_skipped (p : Peer) (first : bool) (L : Z)
    (mid : messageid.MessageID) (tail : list byte) :
  closed (conn p) = false ->
  0 < L < 2 ^ 32 ->
  ~ In mid [messageid.Choke; messageid.Unchoke; messageid.Interested;
            messageid.NotInterested; messageid.Have; messageid.Bitfield;
            messageid.Piece] ->
  rd (conn p) = put_uint32 L ++ mid :: tail ->
  (forall body rest,
     tail = body ++ rest -> Z.of_nat (List.length body) = L - 1 ->
     loop_body p first = Continue (unread p rest) false /\
     Z.of_nat (List.length (rd (conn p)))
     = 4 + L + Z.of_nat (List.length rest)) /\
  (Z.of_nat (List.length tail) < L - 1 ->
     loop_body p first = Exit (unread p []) (IOError (rd_end (conn p)))).
Proof.
  intros Hc HL Hmid Hrd.
  rewrite (loop_body_header p first L mid tail Hc HL Hrd).
  rewrite (dispatch_default _ first mid (L - 1) Hmid).
  split.
  - intros body rest -> Hlen.
    rewrite (CopyN_Discard_app (Z.to_nat (L - 1)) body rest
               (conn (unread p (body ++ rest))) ltac:(lia) eq_refl).
    split; [reflexivity|].
    rewrite Hrd. rewrite List.length_app. cbn [List.length put_uint32].
    rewrite List.length_app. lia.
  - intros Hshort. unfold CopyN_Discard.
    cbn [unread set_conn conn set_rd rd].
    replace (Z.to_nat (L - 1) <=? List.length tail)%nat with false
      by (symmetry; apply Nat.leb_gt; lia).
    reflexivity.
Qed.

Lemma unhandled_id_is_skipped_witness :
  loop_body (fresh (put_uint32 3 ++ x14 :: [x01; x02] ++ keep_alive)) true
  = Continue (unread (fresh (put_uint32 3 ++ x14 :: [x01; x02] ++ keep_alive))
                keep_alive) false.
Proof.
  refine (proj1 (proj1 (unhandled_id_is_skipped
                          (fresh (put_uint32 3 ++ x14 :: [x01; x02] ++ keep_alive))
                          true 3 x14 ([x01; x02] ++ keep_alive) eq_refl _ _ eq_refl)
                   [x01; x02] keep_alive eq_refl eq_refl)).
  - lia.
  - simpl. intros H. repeat (destruct H as [H|H]; [discriminate H|]). exact H.
Defined.

(** unchoke, interested and not-interested only move a flag of the remote:
    the pass takes the prefix and the id, five bytes whatever length was
    declared, hands nothing to the coordinator and leaves the bitfield
    alone. *)
Theorem flag_messages_only_set_flags (p : Peer) (first : bool) (L : Z)
    (mid : messageid.MessageID) (rest : list byte) :
  closed (conn p) = false ->
  0 < L < 2 ^ 32 ->
  In mid [messageid.Unchoke; messageid.Interested; messageid.NotInterested] ->
  rd (conn p) = put_uint32 L ++ mid :: rest ->
  exists p',
    loop_body p first = Continue p' false /\
    rd (conn p') = rest /\
    messages p' = messages p /\
    bitfield p' = bitfield p /\
    peerChoking p'
    = (if Byte.eqb mid messageid.Unchoke then false else peerChoking p) /\
    peerInterested p'
    = (if Byte.eqb mid messageid.Unchoke then peerInterested p
       else Byte.eqb mid messageid.Interested).
Proof.
  intros Hc HL Hmid Hrd.
  rewrite (loop_body_header p first L mid rest Hc HL Hrd).
  simpl in Hmid. destruct Hmid as [<-|[<-|[<-|[]]]]; switch_on_id;
    eexists; (split; [reflexivity|]); repeat split; reflexivity.
Qed.

Lemma flag_messages_only_set_flags_witness :
  exists p',
    loop_body (fresh (frame messageid.Unchoke [])) true = Continue p' false /\
    rd (conn p') = [] /\
    messages p' = messages (fresh (frame messageid.Unchoke [])) /\
    bitfield p' = bitfield (fresh (frame messageid.Unchoke [])) /\
    peerChoking p' = false /\
    peerInterested p' = false.
Proof.
  apply (flag_messages_only_set_flags (fresh (frame messageid.Unchoke []))
           true 1 messageid.Unchoke []); try reflexivity.
  - lia.
  - simpl. tauto.
Defined.

(** choke sets [peerChoking] and then offers the choke to the coordinator:
    taken, it is the one message delivered and the loop goes on; with the
    peer stopped instead, the loop returns, nothing delivered, the flag
    already set.  The pass takes five bytes either way. *)
Theorem choke_is_forwarded_or_stops (p : Peer) (first : bool) (L : Z)
    (rest : list byte) :
  closed (conn p) = false ->
  0 < L < 2 ^ 32 ->
  rd (conn p) = put_uint32 L ++ messageid.Choke :: rest ->
  exists p',
    peerChoking p' = true /\ rd (conn p') = rest /\
    match schedule (messages p) with
    | StopReady :: _ =>
        loop_body p first = Exit p' Stopped /\
        delivered (messages p') = delivered (messages p)
    | _ =>
        loop_body p first = Continue p' false /\
        delivered (messages p')
        = delivered (messages p) ++ [mkMessage (ID p) Choke]
    end.
Proof.
  intros Hc HL Hrd.
  rewrite (loop_body_header p first L messageid.Choke rest Hc HL Hrd).
  switch_on_id. unfold select_send.
  cbn [messages set_peerChoking unread set_conn].
  destruct (schedule (messages p)) as [|[|] sch];
    eexists; (split; [|split; [|split; reflexivity]]); reflexivity.
Qed.

Lemma choke_is_forwarded_or_stops_witness :
  exists p',
    peerChoking p' = true /\ rd (conn p') = [] /\
    loop_body (fresh (frame messageid.Choke [])) true = Continue p' false /\
    delivered (messages p') = [mkMessage remote_id Choke].
Proof.
  apply (choke_is_forwarded_or_stops (fresh (frame messageid.Choke []))
           true 1 []); try reflexivity. lia.
Defined.

(** ** What reaches the coordinator *)

Lemma get_uint32_nonneg (bs : list byte) : 0 <= get_uint32 bs.
Proof.
  unfold get_uint32.
  assert (H : forall l acc, 0 <= acc ->
            0 <= fold_left (fun a x => a * 256 + byte_val x) l acc).
  { induction l as [|x l IH]; intros acc Hacc; simpl; [exact Hacc|].
    apply IH. pose proof (byte_val_range x). lia. }
  apply H. lia.
Qed.

Lemma read_uint32_nonneg (c c' : Conn) (z : Z) :
  read_uint32 c = (inl z, c') -> 0 <= z.
Proof.
  unfold read_uint32. destruct (ReadFull 4 c) as [[bs|e] c0]; [|discriminate].
  intros H. injection H as <- _. apply get_uint32_nonneg.
Qed.

Lemma delivers_none (p p' : Peer) :
  messages p' = messages p -> delivers p p' [].
Proof.
  intros H. unfold delivers. rewrite H, app_nil_r. auto.
Qed.

Lemma delivers_trans (p q r : Peer) (l1 l2 : list Message) :
  id q = id p -> numPieces q = numPieces p ->
  delivers p q l1 -> delivers q r l2 -> delivers p r (l1 ++ l2).
Proof.
  unfold delivers, well_addressed. intros Hid Hn [H1 F1] [H2 F2].
  split.
  - rewrite H2, H1, app_assoc. reflexivity.
  - apply Forall_app. split; [exact F1|].
    rewrite Hid, Hn in F2. exact F2.
Qed.

Lemma select_send_delivers (p : Peer) (m : payload) :
  well_addressed p (mkMessage (id p) m) ->
  exists new, delivers p (fst (select_send p m)) new.
Proof.
  intros Hm. unfold select_send, delivers.
  destruct (schedule (messages p)) as [|[|] sch]; cbn.
  - exists [mkMessage (id p) m]. auto.
  - exists [mkMessage (id p) m]. auto.
  - exists []. rewrite app_nil_r. auto.
Qed.

Lemma Test_true_in_range (bf : bitfield.Bitfield) (j : Z) :
  bitfield.Test bf j = Some true -> 0 <= j < bitfield.length bf.
Proof.
  unfold bitfield.Test, bitfield.in_range.
  destruct (0 <=? j) eqn:E1; [|discriminate].
  destruct (j <? bitfield.length bf) eqn:E2; [|discriminate].
  apply Z.leb_le in E1. apply Z.ltb_lt in E2. lia.
Qed.

Lemma send_haves_delivers (k : nat) :
  forall i bf p,
    bitfield.length bf = numPieces p ->
    exists new, delivers p (step_peer (send_haves k i bf p)) new.
Proof.
  induction k as [|k IH]; intros i bf p Hlen; cbn [send_haves].
  - exists []. apply delivers_none. reflexivity.
  - destruct (bitfield.Test bf i) as [[|]|] eqn:Et.
    + assert (Hm : well_addressed p (mkMessage (id p) (Have i))).
      { split; [reflexivity|]. cbn. rewrite <- Hlen.
        apply Test_true_in_range. exact Et. }
      destruct (select_send_delivers p (Have i) Hm) as [l1 H1].
      pose proof (select_send_reads_only p (Have i)) as Hr.
      destruct (select_send p (Have i)) as [q sent]. cbn [fst] in H1, Hr.
      unfold reads_only in Hr. destruct Hr as (Hid & Hn & _).
      destruct sent; cbn [step_peer].
      * destruct (IH (i + 1) bf q ltac:(congruence)) as [l2 H2].
        exists (l1 ++ l2). eapply delivers_trans; eauto.
      * exists l1. exact H1.
    + apply IH. exact Hlen.
    + exists []. apply delivers_none. reflexivity.
Qed.

Lemma dispatch_delivers (p : Peer) (first : bool)
    (mid : messageid.MessageID) (len : Z) :
  exists new, delivers p (step_peer (dispatch p first mid len)) new.
Proof.
  unfold dispatch.
  destruct (Byte.eqb mid messageid.Choke).
  { destruct (select_send_delivers (set_peerChoking p true) Choke) as [l H].
    { split; [reflexivity | exact I]. }
    exists l. destruct (select_send (set_peerChoking p true) Choke) as [q sent].
    destruct sent; exact H. }
  destruct (Byte.eqb mid messageid.Unchoke);
    [exists []; apply delivers_none; reflexivity|].
  destruct (Byte.eqb mid messageid.Interested);
    [exists []; apply delivers_none; reflexivity|].
  destruct (Byte.eqb mid messageid.NotInterested);
    [exists []; apply delivers_none; reflexivity|].
  destruct (Byte.eqb mid messageid.Have).
  { destruct (read_uint32 (conn p)) as [[index|e] c] eqn:Er;
      [|exists []; apply delivers_none; reflexivity].
    apply read_uint32_nonneg in Er.
    destruct (numPieces (set_conn p c) <=? index) eqn:En;
      [exists []; apply delivers_none; reflexivity|].
    apply Z.leb_gt in En.
    destruct (bitfield (set_conn p c)) as [bf|];
      [|exists []; apply delivers_none; reflexivity].
    destruct (bitfield.Set_ bf index) as [bf'|];
      [|exists []; apply delivers_none; reflexivity].
    destruct (select_send_delivers
                (set_bitfield (set_conn p c) (Some bf')) (Have index)) as [l H].
    { split; [reflexivity|]. cbn in *. lia. }
    exists l.
    destruct (select_send (set_bitfield (set_conn p c) (Some bf')) (Have index))
      as [q sent].
    destruct sent; exact H. }
  destruct (Byte.eqb mid messageid.Bitfield).
  { destruct (negb first); [exists []; apply delivers_none; reflexivity|].
    destruct (negb (len =? uint32 (bitfield.NumBytes (numPieces p))));
      [exists []; apply delivers_none; reflexivity|].
    destruct (ReadFull (Z.to_nat (uint32 (bitfield.NumBytes (numPieces p)))) (conn p))
      as [[bs|e] c]; [|exists []; apply delivers_none; reflexivity].
    cbv zeta.
    destruct (send_haves_delivers
                (Z.to_nat (bitfield.Len
                             (bitfield.NewBytes bs (numPieces (set_conn p c)))))
                0 (bitfield.NewBytes bs (numPieces (set_conn p c)))
                (set_bitfield (set_conn p c)
                   (Some (bitfield.NewBytes bs (numPieces (set_conn p c)))))
                eq_refl) as [l H].
    exists l. exact H. }
  destruct (Byte.eqb mid messageid.Piece).
  { destruct (ReadFull 8 (conn p)) as [[bs|e] c];
      exists []; apply delivers_none; reflexivity. }
  destruct (CopyN_Discard (Z.to_nat len) (conn p)) as [[e|] c];
    exists []; apply delivers_none; reflexivity.
Qed.

Lemma loop_body_delivers (p : Peer) (first : bool) :
  exists new, delivers p (step_peer (loop_body p first)) new.
Proof.
  unfold loop_body.
  destruct (SetReadDeadline (conn p));
    [exists []; apply delivers_none; reflexivity|].
  destruct (read_uint32 (conn p)) as [[len|e] c];
    [|exists []; apply delivers_none; reflexivity].
  destruct (len =? 0); [exists []; apply delivers_none; reflexivity|].
  destruct (read_uint8 (conn (set_conn p c))) as [[mid|e] c'];
    [|exists []; apply delivers_none; reflexivity].
  apply (dispatch_delivers (set_conn (set_conn p c) c') first mid (len - 1)).
Qed.

Lemma read_loop_delivers (fuel : nat) :
  forall p first, exists new, delivers p (final (read_loop fuel p first)) new.
Proof.
  induction fuel as [|k IH]; intros p first; cbn [read_loop].
  - exists []. apply delivers_none. reflexivity.
  - destruct (loop_body_delivers p first) as [l1 H1].
    pose proof (loop_body_reads_only p first) as Hr.
    destruct (loop_body p first) as [q f'|q why|q msg];
      cbn [step_peer final] in *; try (exists l1; exact H1).
    destruct (IH q f') as [l2 H2].
    unfold reads_only in Hr. destruct Hr as (Hid & Hn & _).
    exists (l1 ++ l2). eapply delivers_trans; eauto.
Qed.

(** [Run] only ever appends to what the coordinator has been given, and
    every message it hands over names this peer and is a choke or a have
    whose index is a piece of the torrent: no have out of range, no
    request and no piece event reaches the coordinator, whatever the
    remote sends. *)
Theorem Run_delivers_well_addressed (p : Peer) (b : option bitfield.Bitfield) :
  exists new,
    delivered (messages (final (Run p b))) = delivered (messages p) ++ new /\
    Forall (fun m =>
              from m = ID p /\
              (body m = Choke \/
               exists i, body m = Have i /\ 0 <= i < numPieces p)) new.
Proof.
  assert (H : exists new, delivers p (final (Run_body p b)) new).
  { unfold Run_body.
    pose proof (sendBitfield_local p b) as Hs. cbn zeta in Hs.
    destruct (sendBitfield p b) as [q [e|]|q msg]; cbn [final];
      destruct Hs as (Hid & Hn & _ & _ & _ & _ & _ & Hm & _);
      try (exists []; apply delivers_none; exact Hm).
    destruct (read_loop_delivers (S (List.length (rd (conn q)))) q true)
      as [l Hl].
    exists l. unfold delivers, well_addressed in *.
    rewrite Hm, Hid, Hn in Hl. exact Hl. }
  destruct H as [new [Hd Hf]]. exists new. split.
  - unfold Run. destruct (Run_body p b) as [q why|q msg|q];
      cbn [deferred_close final] in *;
      try destruct (close (disconnected q)); exact Hd.
  - eapply Forall_impl; [|exact Hf].
    intros m [Hfrom Hbody]. split; [exact Hfrom|].
    destruct (body m) as [|i|i g|i g l]; try contradiction; eauto.
Qed.

(** ** have, once the peer has a bitfield *)

Lemma byte_of_index (index n : Z) :
  0 <= index < n ->
  (Z.to_nat (index / 8) < Z.to_nat (bitfield.NumBytes n))%nat.
Proof.
  intros H. unfold bitfield.NumBytes.
  assert (0 <= index / 8) by (apply Z.div_pos; lia).
  assert (index / 8 < (n + 7) / 8).
  { apply Z.div_lt_upper_bound; [lia|].
    pose proof (Z.div_mod (n + 7) 8 ltac:(lia)).
    pose proof (Z.mod_pos_bound (n + 7) 8 ltac:(lia)). lia. }
  lia.
Qed.

(** After a bitfield of [numPieces] bits has been taken, a have in range
    sets its bit in the peer's bitfield, is forwarded to a coordinator
    that receives as the one new message, and the loop goes on with the
    prefix, the id and the four index bytes read. *)
Theorem have_is_recorded_and_forwarded (p : Peer) (first : bool) (L index : Z)
    (rest : list byte) (bf : bitfield.Bitfield) :
  closed (conn p) = false ->
  0 < L < 2 ^ 32 ->
  0 <= index < numPieces p -> numPieces p <= 2 ^ 32 ->
  bitfield p = Some bf ->
  bitfield.length bf = numPieces p ->
  List.length (bitfield.b bf) = Z.to_nat (bitfield.NumBytes (numPieces p)) ->
  hd SendReady (schedule (messages p)) = SendReady ->
  rd (conn p) = put_uint32 L ++ messageid.Have :: put_uint32 index ++ rest ->
  exists bf' p',
    loop_body p first = Continue p' false /\
    bitfield p' = Some bf' /\
    bitfield.Test bf' index = Some true /\
    bitfield.Len bf' = numPieces p /\
    delivered (messages p')
    = delivered (messages p) ++ [mkMessage (ID p) (Have index)] /\
    rd (conn p') = rest.
Proof.
  intros Hc HL Hi Hn Hb Hlen Hbytes Hs Hrd.
  destruct (have_on_bitfield p first L index rest bf Hc HL Hi Hn Hb Hlen Hs Hrd)
    as (bf' & p' & Hset & Hstep & Hbf & Hdel & Hrest).
  exists bf', p'. repeat split; auto.
  - apply (Test_Set_ bf bf' index Hset). rewrite Hbytes.
    apply byte_of_index. exact Hi.
  - unfold bitfield.Set_ in Hset.
    destruct (bitfield.in_range bf index); [|discriminate].
    injection Hset as <-. exact Hlen.
Qed.

Lemma have_is_recorded_and_forwarded_witness :
  let p0 := set_bitfield (fresh (frame messageid.Have (put_uint32 5)))
              (Some (bitfield.New 8)) in
  exists bf' p',
    loop_body p0 true = Continue p' false /\
    bitfield p' = Some bf' /\
    bitfield.Test bf' 5 = Some true /\
    bitfield.Len bf' = 8 /\
    delivered (messages p') = [mkMessage remote_id (Have 5)] /\
    rd (conn p') = [].
Proof.
  apply (have_is_recorded_and_forwarded
           (set_bitfield (fresh (frame messageid.Have (put_uint32 5)))
              (Some (bitfield.New 8)))
           true 5 5 [] (bitfield.New 8)); try reflexivity; cbn; lia.
Defined.

(** ** SendRequest, SendPiece and the loop that receives them *)

(** [SendRequest] writes, in one call and whatever the flags, a message
    of 17 bytes whose fields read back as the length 13, the request id
    and the three arguments.  The loop on the receiving side has no arm
    for it: it skips the message and goes on, nothing delivered. *)
Theorem SendRequest_is_written_and_skipped (a b : Peer) (piece begin len : Z)
    (rest : list byte) (first : bool) :
  closed (conn a) = false ->
  closed (conn b) = false ->
  0 <= piece < 2 ^ 32 -> 0 <= begin < 2 ^ 32 -> 0 <= len < 2 ^ 32 ->
  exists buf,
    wr (conn (fst (SendRequest a piece begin len))) = wr (conn a) ++ [buf] /\
    List.length buf = 17%nat /\
    get_uint32 (firstn 4 buf) = 13 /\
    nth 4 buf x00 = messageid.Request /\
    get_uint32 (firstn 4 (skipn 5 buf)) = piece /\
    get_uint32 (firstn 4 (skipn 9 buf)) = begin /\
    get_uint32 (firstn 4 (skipn 13 buf)) = len /\
    loop_body (unread b (buf ++ rest)) first = Continue (unread b rest) false /\
    messages (unread b rest) = messages b.
Proof.
  intros Ha Hb Hp Hg Hl.
  exists (frame messageid.Request
            (put_uint32 piece ++ put_uint32 begin ++ put_uint32 len)).
  split; [|split; [|split; [|split; [|split; [|split; [|split; [|split]]]]]]].
  - unfold SendRequest, writeMessage, Conn_Write. rewrite Ha. reflexivity.
  - reflexivity.
  - reflexivity.
  - reflexivity.
  - change (firstn 4 (skipn 5 (frame messageid.Request
              (put_uint32 piece ++ put_uint32 begin ++ put_uint32 len))))
      with (put_uint32 piece).
    apply get_put_uint32. exact Hp.
  - change (firstn 4 (skipn 9 (frame messageid.Request
              (put_uint32 piece ++ put_uint32 begin ++ put_uint32 len))))
      with (put_uint32 begin).
    apply get_put_uint32. exact Hg.
  - change (firstn 4 (skipn 13 (frame messageid.Request
              (put_uint32 piece ++ put_uint32 begin ++ put_uint32 len))))
      with (put_uint32 len).
    apply get_put_uint32. exact Hl.
  - exact (request_is_discarded
             (unread b (frame messageid.Request
                          (put_uint32 piece ++ put_uint32 begin ++ put_uint32 len)
                        ++ rest))
             first piece begin len rest Hb eq_refl).
  - reflexivity.
Qed.

Lemma SendRequest_is_written_and_skipped_witness :
  exists buf,
    wr (conn (fst (SendRequest (fresh []) 1 16384 16384)))
    = wr (conn (fresh [])) ++ [buf] /\
    List.length buf = 17%nat /\
    get_uint32 (firstn 4 buf) = 13 /\
    nth 4 buf x00 = messageid.Request /\
    get_uint32 (firstn 4 (skipn 5 buf)) = 1 /\
    get_uint32 (firstn 4 (skipn 9 buf)) = 16384 /\
    get_uint32 (firstn 4 (skipn 13 buf)) = 16384 /\
    loop_body (unread (fresh []) (buf ++ [])) true
    = Continue (unread (fresh []) []) false /\
    messages (unread (fresh []) []) = messages (fresh []).
Proof.
  apply (SendRequest_is_written_and_skipped (fresh []) (fresh [])
           1 16384 16384 [] true); try reflexivity; lia.
Defined.

(** [SendPiece] writes one message: the length [9 + len(block)], the
    piece id, index and begin, then the block as it is.  The loop on the
    receiving side reads it up to the begin and goes on with the block
    still unread, nothing delivered. *)
Theorem SendPiece_is_written_and_half_read (a b : Peer) (index begin : Z)
    (block rest : list byte) (first : bool) :
  closed (conn a) = false ->
  closed (conn b) = false ->
  0 <= index < 2 ^ 32 -> 0 <= begin < 2 ^ 32 ->
  9 + Z.of_nat (List.length block) < 2 ^ 32 ->
  exists buf,
    wr (conn (fst (SendPiece a index begin block))) = wr (conn a) ++ [buf] /\
    get_uint32 (firstn 4 buf) = 9 + Z.of_nat (List.length block) /\
    nth 4 buf x00 = messageid.Piece /\
    get_uint32 (firstn 4 (skipn 5 buf)) = index /\
    get_uint32 (firstn 4 (skipn 9 buf)) = begin /\
    skipn 13 buf = block /\
    loop_body (unread b (buf ++ rest)) first
    = Continue (unread b (block ++ rest)) false /\
    messages (unread b (block ++ rest)) = messages b.
Proof.
  intros Ha Hb Hi Hg Hlen.
  exists (frame messageid.Piece (put_uint32 index ++ put_uint32 begin ++ block)).
  assert (El : uint32 (1 + Z.of_nat (List.length
                                       (put_uint32 index ++ put_uint32 begin ++ block)))
               = 9 + Z.of_nat (List.length block)).
  { rewrite uint32_small; cbn [put_uint32 List.length app]; lia. }
  unfold frame. rewrite El.
  split; [|split; [|split; [|split; [|split; [|split; [|split]]]]]].
  - unfold SendPiece, writeMessage, Conn_Write. rewrite Ha, El. reflexivity.
  - change (firstn 4 (put_uint32 (9 + Z.of_nat (List.length block)) ++ _))
      with (put_uint32 (9 + Z.of_nat (List.length block))).
    apply get_put_uint32. lia.
  - reflexivity.
  - change (firstn 4 (skipn 5 (put_uint32 (9 + Z.of_nat (List.length block))
              ++ messageid.Piece :: put_uint32 index ++ put_uint32 begin ++ block)))
      with (put_uint32 index).
    apply get_put_uint32. exact Hi.
  - change (firstn 4 (skipn 9 (put_uint32 (9 + Z.of_nat (List.length block))
              ++ messageid.Piece :: put_uint32 index ++ put_uint32 begin ++ block)))
      with (put_uint32 begin).
    apply get_put_uint32. exact Hg.
  - reflexivity.
  - apply (piece_block_left_unread
             (unread b ((put_uint32 (9 + Z.of_nat (List.length block))
                         ++ messageid.Piece
                            :: put_uint32 index ++ put_uint32 begin ++ block)
                        ++ rest))
             first (9 + Z.of_nat (List.length block))
             index begin (block ++ rest) Hb ltac:(lia)).
    cbn [unread set_conn conn set_rd rd put_uint32 app].
    reflexivity.
  - reflexivity.
Qed.

Lemma SendPiece_is_written_and_half_read_witness :
  exists buf,
    wr (conn (fst (SendPiece (fresh []) 2 0 [x61; x62; x63])))
    = wr (conn (fresh [])) ++ [buf] /\
    get_uint32 (firstn 4 buf) = 12 /\
    nth 4 buf x00 = messageid.Piece /\
    get_uint32 (firstn 4 (skipn 5 buf)) = 2 /\
    get_uint32 (firstn 4 (skipn 9 buf)) = 0 /\
    skipn 13 buf = [x61; x62; x63] /\
    loop_body (unread (fresh []) (buf ++ [])) true
    = Continue (unread (fresh []) ([x61; x62; x63] ++ [])) false /\
    messages (unread (fresh []) ([x61; x62; x63] ++ [])) = messages (fresh []).
Proof.
  apply (SendPiece_is_written_and_half_read (fresh []) (fresh [])
           2 0 [x61; x62; x63] [] true); try reflexivity; cbn; lia.
Defined.

(** ** The bitfield one side sends and the other takes *)

(** The message [sendBitfield] writes for a local bitfield with a set bit
    is taken by the loop of a peer of the same piece count that reads it
    first: the bytes sent become that peer's bitfield, a have goes to the
    coordinator for each of its set bits, and the loop goes on behind the
    message. *)
Theorem sent_bitfield_is_taken (a b : Peer) (bf : bitfield.Bitfield)
    (rest : list byte) :
  closed (conn a) = false ->
  closed (conn b) = false ->
  0 <= numPieces b < 2 ^ 32 ->
  bitfield.Count bf <> 0 ->
  Z.of_nat (List.length (bitfield.Bytes bf)) = bitfield.NumBytes (numPieces b) ->
  ~ In StopReady (schedule (messages b)) ->
  exists buf a' b',
    sendBitfield a (Some bf) = Ret a' (wr_err (conn a)) /\
    wr (conn a') = wr (conn a) ++ [buf] /\
    loop_body (unread b (buf ++ rest)) true = Continue b' false /\
    bitfield b' = Some (bitfield.NewBytes (bitfield.Bytes bf) (numPieces b)) /\
    delivered (messages b')
    = delivered (messages b)
      ++ haves b (set_bits (bitfield.NewBytes (bitfield.Bytes bf) (numPieces b))) /\
    rd (conn b') = rest.
Proof.
  intros Ha Hb Hn Hcount Hlen Hs.
  assert (Hnb : 0 <= bitfield.NumBytes (numPieces b) < 2 ^ 29 + 1).
  { unfold bitfield.NumBytes. split.
    - apply Z.div_pos; lia.
    - apply Z.div_lt_upper_bound; lia. }
  exists (frame messageid.Bitfield (bitfield.Bytes bf)).
  unfold sendBitfield.
  replace (bitfield.Count bf =? 0) with false
    by (symmetry; apply Z.eqb_neq; exact Hcount).
  unfold writeMessage, Conn_Write. rewrite Ha.
  eexists. 
  set (bf' := bitfield.NewBytes (bitfield.Bytes bf) (numPieces b)).
  set (p2 := set_bitfield (unread b rest) (Some bf')).
  destruct (send_haves_spec (Z.to_nat (bitfield.Len bf')) 0 bf' p2 (Z.le_refl 0))
    as (b' & j & Hid & Hbf & Hconn & Hdel & Hres).
  { subst bf'. cbn [bitfield.Len bitfield.NewBytes bitfield.length]. lia. }
  cbn zeta in Hdel, Hres.
  exists b'. split; [reflexivity|]. split; [reflexivity|].
  destruct Hres as [[Hstep Hall]|[_ Hstop]]; [|exfalso; exact (Hs Hstop)].
  split; [|split; [|split]].
  - unfold frame. rewrite uint32_small by lia.
    rewrite (loop_body_header (unread b _) true
               (1 + Z.of_nat (List.length (bitfield.Bytes bf)))
               messageid.Bitfield (bitfield.Bytes bf ++ rest) Hb ltac:(lia))
      by (cbn [unread set_conn conn set_rd rd]; rewrite <- app_assoc; reflexivity).
    switch_on_id. cbn [negb].
    change (numPieces (unread (unread b _) (bitfield.Bytes bf ++ rest)))
      with (numPieces b).
    rewrite (NumBytes_uint32 (numPieces b) Hn).
    replace (1 + Z.of_nat (List.length (bitfield.Bytes bf)) - 1
             =? bitfield.NumBytes (numPieces b))
      with true by (symmetry; apply Z.eqb_eq; lia).
    cbn [negb].
    assert (Hl : List.length (bitfield.Bytes bf)
                 = Z.to_nat (bitfield.NumBytes (numPieces b))) by lia.
    match goal with
    | |- context [ReadFull ?n ?c] =>
        rewrite (ReadFull_app n (bitfield.Bytes bf) rest c Hl eq_refl)
    end.
    cbv beta iota zeta. exact Hstep.
  - rewrite Hbf. reflexivity.
  - rewrite Hdel, Hall. reflexivity.
  - rewrite Hconn. reflexivity.
Qed.

Lemma sent_bitfield_is_taken_witness :
  exists buf a' b',
    sendBitfield (fresh []) (Some (bitfield.NewBytes [xa0] 8)) = Ret a' None /\
    wr (conn a') = [buf] /\
    loop_body (unread (fresh []) (buf ++ keep_alive)) true = Continue b' false /\
    bitfield b' = Some (bitfield.NewBytes [xa0] 8) /\
    delivered (messages b') = haves (fresh []) [0; 2] /\
    rd (conn b') = keep_alive.
Proof.
  apply (sent_bitfield_is_taken (fresh []) (fresh [])
           (bitfield.NewBytes [xa0] 8) keep_alive); try reflexivity.
  - cbn; lia.
  - vm_compute. discriminate.
  - simpl. tauto.
Defined.

(** ** Sending the same thing twice *)

(** Each of the four flag sends done twice in a row is the same as done
    once: whatever the state of the peer and of its connection, the second
    call returns nil and leaves the peer, its connection included, as the
    first call left it. *)
Theorem send_twice_is_send_once (p : Peer) (o : send_op) :
  do_send (fst (do_send p o)) o = (fst (do_send p o), None).
Proof.
  destruct o; cbn [do_send];
    unfold SendChoke, SendUnchoke, SendInterested, SendNotInterested;
    destruct (amChoking p) eqn:E1; destruct (amInterested p) eqn:E2;
    cbn [negb fst]; rewrite ?E1, ?E2; cbn [negb]; try reflexivity;
    unfold writeMessage, Conn_Write;
    cbn [conn set_amChoking set_amInterested];
    destruct (closed (conn p)); reflexivity.
Qed.

(** ** The first message of a run *)

Lemma deferred_close_keeps_messages (r : outcome) :
  messages (final (deferred_close r)) = messages (final r).
Proof.
  destruct r as [p why|p msg|p]; simpl; auto;
    destruct (close (disconnected p)); reflexivity.
Qed.

(** [Run] gets to its loop, with the incoming bytes and the peer's state
    untouched, once the local bitfield has been sent (or skipped). *)
Lemma sendBitfield_then_loop (p : Peer) (lb : bitfield.Bitfield) :
  closed (conn p) = false ->
  wr_err (conn p) = None ->
  exists q,
    sendBitfield p (Some lb) = Ret q None /\
    closed (conn q) = false /\
    rd (conn q) = rd (conn p) /\
    numPieces q = numPieces p /\ id q = id p /\
    messages q = messages p /\ bitfield q = bitfield p /\
    disconnected q = disconnected p.
Proof.
  intros Hc Hw. unfold sendBitfield, writeMessage, Conn_Write.
  destruct (bitfield.Count lb =? 0).
  - exists p. repeat split; auto.
  - rewrite Hc, Hw. eexists. split; [reflexivity|]. repeat split; reflexivity.
Qed.

(** C6: when the first message [Run] reads on a connection is a bitfield,
    a payload length other than [NumBytes numPieces] is a violation: [Run]
    returns, the disconnect signal fired, nothing delivered and no
    bitfield taken.  With the right length and the payload there, the
    decoded bitfield becomes the peer's and a have is forwarded for each
    set bit in increasing order and for no other index; [Run] then goes
    on with the rest of the connection, [first] false, and those haves
    are the first messages it has delivered when it ends.  Only a
    [select] that finds the peer stopped cuts the haves short, and [Run]
    returns there. *)
Theorem first_bitfield_accepted (p : Peer) (lb : bitfield.Bitfield) (L : Z)
    (rest : list byte) :
  closed (conn p) = false ->
  wr_err (conn p) = None ->
  disconnected p = Open ->
  0 <= numPieces p < 2 ^ 32 ->
  0 < L < 2 ^ 32 ->
  rd (conn p) = put_uint32 L ++ messageid.Bitfield :: rest ->
  (L - 1 <> bitfield.NumBytes (numPieces p) ->
     exists p',
       Run p (Some lb) = Returned p' (Violation "invalid bitfield length") /\
       NotifyDisconnect p' = Closed /\
       messages p' = messages p /\
       bitfield p' = bitfield p /\
       rd (conn p') = rest) /\
  (L - 1 = bitfield.NumBytes (numPieces p) ->
     forall bs rest',
       rest = bs ++ rest' -> Z.of_nat (List.length bs) = L - 1 ->
       let bf := bitfield.NewBytes bs (numPieces p) in
       (forall i, In i (set_bits bf) <-> bitfield.Test bf i = Some true) /\
       exists p' j,
         bitfield p' = Some bf /\
         rd (conn p') = rest' /\
         delivered (messages p')
         = delivered (messages p) ++ haves p (firstn j (set_bits bf)) /\
         ((firstn j (set_bits bf) = set_bits bf /\
           Run_body p (Some lb)
           = read_loop (List.length (rd (conn p))) p' false /\
           Run p (Some lb)
           = deferred_close (read_loop (List.length (rd (conn p))) p' false) /\
           exists more,
             delivered (messages (final (Run p (Some lb))))
             = delivered (messages p) ++ haves p (set_bits bf) ++ more) \/
          (In StopReady (schedule (messages p)) /\
           Run p (Some lb) = Returned (set_disconnected p' Closed) Stopped))).
Proof.
  intros Hc Hw Hd Hn HL Hrd.
  destruct (sendBitfield_then_loop p lb Hc Hw)
    as (q & Hsend & Hcq & Hrdq & Hnq & Hidq & Hmq & Hbq & Hdq).
  assert (Hrun : Run_body p (Some lb)
                 = match loop_body q true with
                   | Continue p' first' =>
                       read_loop (List.length (rd (conn p))) p' first'
                   | Exit p' why => Returned p' why
                   | Panics p' msg => Panicked p' msg
                   end).
  { unfold Run_body. rewrite Hsend. cbn [read_loop]. rewrite Hrdq. reflexivity. }
  rewrite <- Hrdq in Hrd. rewrite <- Hnq in Hn.
  destruct (first_bitfield_pass q L rest Hcq Hn HL Hrd) as [Hbad Hgood].
  rewrite Hnq in Hbad, Hgood.
  split.
  - intros Hne. specialize (Hbad Hne).
    exists (set_disconnected (unread q rest) Closed).
    split; [|repeat split; cbn; auto].
    unfold Run. rewrite Hrun, Hbad. cbn [deferred_close].
    change (disconnected (unread q rest)) with (disconnected q).
    rewrite Hdq, Hd. reflexivity.
  - intros He bs rest' Hrest Hlen bf.
    destruct (Hgood He bs rest' Hrest Hlen) as (Hbits & p' & j & Hbf & Hr & Hdel & Hres).
    split; [exact Hbits|]. fold bf in Hbf, Hdel, Hres.
    exists p', j.
    assert (Hh : forall l, haves q l = haves p l)
      by (intros l; unfold haves; rewrite Hidq; reflexivity).
    rewrite Hmq, Hh in Hdel.
    split; [exact Hbf|]. split; [exact Hr|]. split; [exact Hdel|].
    destruct Hres as [[Hstep Hall]|[Hstep Hstop]].
    + left. rewrite Hstep in Hrun.
      split; [exact Hall|]. split; [exact Hrun|].
      assert (HRun : Run p (Some lb)
                     = deferred_close
                         (read_loop (List.length (rd (conn p))) p' false))
        by (unfold Run; rewrite Hrun; reflexivity).
      split; [exact HRun|].
      destruct (read_loop_delivers (List.length (rd (conn p))) p' false)
        as (more & Hmore & _).
      exists more. rewrite HRun, deferred_close_keeps_messages.
      rewrite Hmore, Hdel, Hall, <- app_assoc. reflexivity.
    + right. rewrite Hmq in Hstop. split; [exact Hstop|].
      unfold Run. rewrite Hrun, Hstep. cbn [deferred_close].
      pose proof (loop_body_reads_only q true) as Hro.
      rewrite Hstep in Hro. cbn [step_peer] in Hro.
      unfold reads_only in Hro. decompose [and] Hro.
      match goal with
      | Hx : disconnected p' = disconnected q |- _ => rewrite Hx
      end.
      rewrite Hdq, Hd. reflexivity.
Qed.

Lemma first_bitfield_accepted_witness :
  let p0 := fresh (frame messageid.Bitfield [xa0] ++ frame messageid.Choke []) in
  let own := bitfield.New 8 in
  exists p' j,
    bitfield p' = Some (bitfield.NewBytes [xa0] 8) /\
    rd (conn p') = frame messageid.Choke [] /\
    delivered (messages p') = haves p0 (firstn j [0; 2]) /\
    ((firstn j [0; 2] = [0; 2] /\
      Run_body p0 (Some own) = read_loop 11 p' false /\
      Run p0 (Some own) = deferred_close (read_loop 11 p' false) /\
      exists more,
        delivered (messages (final (Run p0 (Some own))))
        = haves p0 [0; 2] ++ more) \/
     (In StopReady [] /\
      Run p0 (Some own) = Returned (set_disconnected p' Closed) Stopped)).
Proof.
  exact (proj2 (proj2 (first_bitfield_accepted
                         (fresh (frame messageid.Bitfield [xa0]
                                 ++ frame messageid.Choke []))
                         (bitfield.New 8) 2 ([xa0] ++ frame messageid.Choke [])
                         eq_refl eq_refl eq_refl
                         ltac:(cbn; lia) ltac:(lia) eq_refl)
                  eq_refl [xa0] (frame messageid.Choke []) eq_refl eq_refl)).
Defined.

(** The same run computed: the bitfield is taken, its two haves are the
    first messages delivered, and the choke behind it is read next. *)
Example first_bitfield_run :
  let p0 := fresh (frame messageid.Bitfield [xa0] ++ frame messageid.Choke []) in
  let r := Run p0 (Some (bitfield.New 8)) in
  r = Returned (final r) RemoteClosed /\
  bitfield (final r) = Some (bitfield.NewBytes [xa0] 8) /\
  delivered (messages (final r))
  = haves p0 [0; 2] ++ [mkMessage remote_id Choke] /\
  NotifyDisconnect (final r) = Closed.
Proof.
  vm_compute. repeat split; reflexivity.
Qed.
